(** * Verification of [services/gemini.ts]

    A shallow embedding of the AI service adapter: the three exported
    operations [generatePrompts], [analyzeImageStyle] and [generateImage],
    the pieces of the ECMAScript runtime they rely on (strings, [JSON.parse],
    [try]/[catch]), and the properties of their results. *)

From Stdlib Require Import List NArith ZArith String Ascii Bool Lia.
Import ListNotations.

Local Open Scope N_scope.

(** ** ECMAScript strings

    A string value is a finite sequence of UTF-16 code units.  [lit] reads a
    source literal (all literals of the file are ASCII). *)

Definition jsstring := list N.

Fixpoint lit (s : string) : jsstring :=
  match s with
  | EmptyString => []
  | String a r => N_of_ascii a :: lit r
  end.

(** The double quote and the line feed, which literals spell with escapes. *)
Definition dq : jsstring := [34].
Definition nl : jsstring := [10].

(** A template literal, line by line: every line is ended by a line feed. *)
Fixpoint lines (ls : list jsstring) : jsstring :=
  match ls with
  | [] => []
  | l :: ls' => l ++ nl ++ lines ls'
  end.

(** [String.prototype.startsWith], position 0. *)
Fixpoint startsWith (s searchString : jsstring) {struct searchString} : bool :=
  match searchString, s with
  | [], _ => true
  | _ :: _, [] => false
  | c :: p', d :: s' => (c =? d) && startsWith s' p'
  end.

(** [String.prototype.includes]: some suffix of [s] starts with
    [searchString]. *)
Fixpoint includes (s searchString : jsstring) : bool :=
  match s with
  | [] => startsWith [] searchString
  | _ :: s' => startsWith s searchString || includes s' searchString
  end.

(** WhiteSpace and LineTerminator code units (ECMA-262, 12.2 and 12.3):
    TAB, LF, VT, FF, CR, SP, NBSP, the space separators of Unicode, LS, PS
    and ZWNBSP. *)
Definition isWhiteSpace (c : N) : bool :=
  existsb (N.eqb c)
    [9; 10; 11; 12; 13; 32; 160; 5760; 8232; 8233; 8239; 8287; 12288; 65279]
  || ((8192 <=? c) && (c <=? 8202)).

Fixpoint trimStart (s : jsstring) : jsstring :=
  match s with
  | [] => []
  | c :: s' => if isWhiteSpace c then trimStart s' else s
  end.

Definition trimEnd (s : jsstring) : jsstring := rev (trimStart (rev s)).

(** [String.prototype.trim]. *)
Definition trim (s : jsstring) : jsstring := trimEnd (trimStart s).

(** ** ECMAScript values, as far as [JSON.parse] produces them *)

(** The mathematical value of a JSON number literal:
    [(-1)^negative * mantissa * 10^exponent10]. *)
Record JSONNumber := {
  negative : bool;
  mantissa : N;
  exponent10 : Z
}.

Unset Elimination Schemes.
Inductive JSValue :=
| JSUndefined
| JSNull
| JSBoolean (b : bool)
| JSNumber (n : JSONNumber)
| JSString (s : jsstring)
| JSArray (elements : list JSValue)
| JSObject (properties : list (jsstring * JSValue)).
Set Elimination Schemes.

(** What a [throw] carries: an [Error] object (of any subclass) with its
    message, or any other value. *)
Inductive Thrown :=
| ErrorObject (message : jsstring)
| NonError (v : JSValue).

(** Completion of a computation: normal, or abrupt by [throw]. *)
Inductive Completion (A : Type) :=
| Returns (a : A)
| Throws (e : Thrown).
Arguments Returns {A} a.
Arguments Throws {A} e.

Definition bind {A B} (c : Completion A) (k : A -> Completion B) : Completion B :=
  match c with
  | Returns a => k a
  | Throws e => Throws e
  end.

(** [try { body } catch (e) { handler }] *)
Definition try_catch {A} (body : Completion A) (handler : Thrown -> Completion A)
  : Completion A :=
  match body with
  | Returns a => Returns a
  | Throws e => handler e
  end.

Notation "x <- c ;; k" := (bind c (fun x => k))
  (at level 61, c at next level, right associativity).

(** [new Error(message)] *)
Definition Error (message : jsstring) : Thrown := ErrorObject message.

(** [e instanceof Error] *)
Definition instanceofError (e : Thrown) : bool :=
  match e with
  | ErrorObject _ => true
  | NonError _ => false
  end.

(** ToBoolean of a number literal's value.  The Number value is the literal's
    mathematical value rounded to binary64, ties to even; it is zero exactly
    when the magnitude is at most [2^-1075], half the least subnormal. *)
Definition number_truthy (n : JSONNumber) : bool :=
  if (0 <=? exponent10 n)%Z then negb (mantissa n =? 0)
  else negb (Z.of_N (mantissa n) * 2 ^ 1075 <=? 10 ^ (- exponent10 n))%Z.

(** ToBoolean *)
Definition truthy (v : JSValue) : bool :=
  match v with
  | JSUndefined | JSNull => false
  | JSBoolean b => b
  | JSNumber n => number_truthy n
  | JSString s => match s with [] => false | _ => true end
  | JSArray _ | JSObject _ => true
  end.

(** An optional string in a condition: [undefined] and [''] are falsy. *)
Definition truthy_string (s : option jsstring) : bool :=
  match s with
  | Some (_ :: _) => true
  | _ => false
  end.

Fixpoint jseqb (a b : jsstring) : bool :=
  match a, b with
  | [], [] => true
  | c :: a', d :: b' => (c =? d) && jseqb a' b'
  | _, _ => false
  end.

(** [x === 'literal'] for an optional string [x]. *)
Definition strict_eq (x : option jsstring) (s : jsstring) : bool :=
  match x with
  | Some t => jseqb t s
  | None => false
  end.

(** ** [JSON.parse]

    A recursive-descent reading of the JSON grammar (ECMA-404, as ECMA-262
    25.5.1 prescribes): insignificant whitespace, the three literal names,
    numbers, strings with their escapes, arrays and objects.  Nested values
    recurse on a fuel bound; [JSON_parse_fuel] below shows the bound of
    [JSON_parse] is never reached. *)

Inductive Parse (A : Type) :=
| OutOfFuel
| SyntaxError
| Parsed (a : A) (rest : jsstring).
Arguments OutOfFuel {A}.
Arguments SyntaxError {A}.
Arguments Parsed {A} a rest.

Definition isJSONWhiteSpace (c : N) : bool :=
  (c =? 9) || (c =? 10) || (c =? 13) || (c =? 32).

Fixpoint skip_ws (s : jsstring) : jsstring :=
  match s with
  | [] => []
  | c :: s' => if isJSONWhiteSpace c then skip_ws s' else s
  end.

Definition isDigit (c : N) : bool := (48 <=? c) && (c <=? 57).

Definition hexval (c : N) : option N :=
  if isDigit c then Some (c - 48)
  else if (97 <=? c) && (c <=? 102) then Some (c - 87)
  else if (65 <=? c) && (c <=? 70) then Some (c - 55)
  else None.

Definition hex4 (a b c d : N) : option N :=
  match hexval a, hexval b, hexval c, hexval d with
  | Some x, Some y, Some z, Some w => Some (((x * 16 + y) * 16 + z) * 16 + w)
  | _, _, _, _ => None
  end.

(** The code unit a single-character escape stands for. *)
Definition escape (c : N) : option N :=
  if (c =? 34) || (c =? 92) || (c =? 47) then Some c
  else if c =? 98 then Some 8
  else if c =? 102 then Some 12
  else if c =? 110 then Some 10
  else if c =? 114 then Some 13
  else if c =? 116 then Some 9
  else None.

(** The characters of a string after its opening quote, up to and including
    the closing quote; [acc] holds the code units read so far, last first. *)
Fixpoint string_chars (s : jsstring) (acc : jsstring) : Parse jsstring :=
  match s with
  | [] => SyntaxError
  | c :: r =>
    if c =? 34 then Parsed (rev acc) r
    else if c =? 92 then
      match r with
      | [] => SyntaxError
      | e :: r' =>
        if e =? 117 then
          match r' with
          | h1 :: h2 :: h3 :: h4 :: r'' =>
            match hex4 h1 h2 h3 h4 with
            | Some u => string_chars r'' (u :: acc)
            | None => SyntaxError
            end
          | _ => SyntaxError
          end
        else
          match escape e with
          | Some u => string_chars r' (u :: acc)
          | None => SyntaxError
          end
      end
    else if c <? 32 then SyntaxError
    else string_chars r (c :: acc)
  end.

(** A maximal run of digits, accumulated in base ten onto [acc]; [count] is
    the number of digits read. *)
Fixpoint digits (s : jsstring) (acc : N) (count : nat) : N * nat * jsstring :=
  match s with
  | [] => (acc, count, [])
  | c :: r =>
    if isDigit c then digits r (10 * acc + (c - 48)) (S count)
    else (acc, count, s)
  end.

(** Optional fraction: a dot and at least one digit. *)
Definition fraction (s : jsstring) (int : N) : option (N * nat * jsstring) :=
  match s with
  | c :: r =>
    if c =? 46 then
      match digits r int 0 with
      | (_, O, _) => None
      | res => Some res
      end
    else Some (int, O, s)
  | [] => Some (int, O, [])
  end.

(** Optional exponent: [e] or [E], an optional sign and at least one digit. *)
Definition exponent (s : jsstring) : option (Z * jsstring) :=
  match s with
  | c :: r =>
    if (c =? 101) || (c =? 69) then
      let '(neg, r1) :=
        match r with
        | d :: r' =>
          if d =? 43 then (false, r')
          else if d =? 45 then (true, r')
          else (false, r)
        | [] => (false, [])
        end in
      match digits r1 0 0 with
      | (_, O, _) => None
      | (e, _, r2) => Some (if neg then (- Z.of_N e)%Z else Z.of_N e, r2)
      end
    else Some (0%Z, s)
  | [] => Some (0%Z, [])
  end.

(** A number: optional minus, an integer part without a leading zero unless
    it is the single digit 0, optional fraction, optional exponent. *)
Definition number (s : jsstring) : Parse JSONNumber :=
  let '(neg, s0) :=
    match s with
    | c :: r => if c =? 45 then (true, r) else (false, s)
    | [] => (false, [])
    end in
  match s0 with
  | [] => SyntaxError
  | c :: r =>
    if isDigit c then
      let '(int, _, s1) := if c =? 48 then (0, 1%nat, r) else digits s0 0 0 in
      match fraction s1 int with
      | None => SyntaxError
      | Some (m, k, s2) =>
        match exponent s2 with
        | None => SyntaxError
        | Some (e, s3) =>
          Parsed {| negative := neg; mantissa := m;
                    exponent10 := (e - Z.of_nat k)%Z |} s3
        end
      end
    else SyntaxError
  end.

(** A literal name. *)
Definition keyword (name : jsstring) (v : JSValue) (s : jsstring) : Parse JSValue :=
  if startsWith s name then Parsed v (skipn (List.length name) s) else SyntaxError.

(** CreateDataProperty on the object under construction: a repeated key
    keeps its place and takes the later value. *)
Fixpoint obj_set (o : list (jsstring * JSValue)) (k : jsstring) (v : JSValue)
  : list (jsstring * JSValue) :=
  match o with
  | [] => [(k, v)]
  | (k', v') :: o' => if jseqb k' k then (k', v) :: o' else (k', v') :: obj_set o' k v
  end.

Fixpoint obj_get (o : list (jsstring * JSValue)) (k : jsstring) : option JSValue :=
  match o with
  | [] => None
  | (k', v') :: o' => if jseqb k' k then Some v' else obj_get o' k
  end.

Fixpoint value (fuel : nat) (s : jsstring) : Parse JSValue :=
  match fuel with
  | O => OutOfFuel
  | S fuel =>
    match skip_ws s with
    | [] => SyntaxError
    | c :: r =>
      if c =? 123 then
        match skip_ws r with
        | [] => SyntaxError
        | c' :: r' => if c' =? 125 then Parsed (JSObject []) r' else members fuel [] r
        end
      else if c =? 91 then
        match skip_ws r with
        | [] => SyntaxError
        | c' :: r' => if c' =? 93 then Parsed (JSArray []) r' else elements fuel [] r
        end
      else if c =? 34 then
        match string_chars r [] with
        | Parsed str r' => Parsed (JSString str) r'
        | _ => SyntaxError
        end
      else if c =? 116 then keyword (lit "true") (JSBoolean true) (c :: r)
      else if c =? 102 then keyword (lit "false") (JSBoolean false) (c :: r)
      else if c =? 110 then keyword (lit "null") JSNull (c :: r)
      else
        match number (c :: r) with
        | Parsed n r' => Parsed (JSNumber n) r'
        | _ => SyntaxError
        end
    end
  end
with elements (fuel : nat) (acc : list JSValue) (s : jsstring) : Parse JSValue :=
  match fuel with
  | O => OutOfFuel
  | S fuel =>
    match value fuel s with
    | OutOfFuel => OutOfFuel
    | SyntaxError => SyntaxError
    | Parsed v r =>
      match skip_ws r with
      | [] => SyntaxError
      | c :: r' =>
        if c =? 44 then elements fuel (acc ++ [v]) r'
        else if c =? 93 then Parsed (JSArray (acc ++ [v])) r'
        else SyntaxError
      end
    end
  end
with members (fuel : nat) (acc : list (jsstring * JSValue)) (s : jsstring)
  : Parse JSValue :=
  match fuel with
  | O => OutOfFuel
  | S fuel =>
    match skip_ws s with
    | [] => SyntaxError
    | q :: r =>
      if q =? 34 then
        match string_chars r [] with
        | Parsed k r1 =>
          match skip_ws r1 with
          | [] => SyntaxError
          | c1 :: r2 =>
            if c1 =? 58 then
              match value fuel r2 with
              | OutOfFuel => OutOfFuel
              | SyntaxError => SyntaxError
              | Parsed v r3 =>
                match skip_ws r3 with
                | [] => SyntaxError
                | c3 :: r4 =>
                  if c3 =? 44 then members fuel (obj_set acc k v) r4
                  else if c3 =? 125 then Parsed (JSObject (obj_set acc k v)) r4
                  else SyntaxError
                end
              end
            else SyntaxError
          end
        | _ => SyntaxError
        end
      else SyntaxError
    end
  end.

(** Fuel for a whole text: two units per code unit and one more. *)
Definition fuel_for (text : jsstring) : nat := S (2 * List.length text).

(** The message of the SyntaxError is the engine's own; no handler of this
    file reads it. *)
Definition SyntaxError_message : jsstring := lit "SyntaxError".

(** [JSON.parse(text)]: one value, whitespace around it, nothing else. *)
Definition JSON_parse (text : jsstring) : Completion JSValue :=
  match value (fuel_for text) text with
  | Parsed v rest =>
    match skip_ws rest with
    | [] => Returns v
    | _ :: _ => Throws (ErrorObject SyntaxError_message)
    end
  | _ => Throws (ErrorObject SyntaxError_message)
  end.

(** [Array.isArray] *)
Definition isArray (v : JSValue) : bool :=
  match v with
  | JSArray _ => true
  | _ => false
  end.

(** The message of the TypeError a property read on [undefined] or [null]
    raises; it is the engine's own. *)
Definition TypeError_message : jsstring := lit "TypeError".

(** [v.prompts]: the own property of an object; no prototype defines a
    property of that name, so every other value that can be read from gives
    [undefined]; reading from [null] or [undefined] throws. *)
Definition get_prompts (v : JSValue) : Completion JSValue :=
  match v with
  | JSUndefined | JSNull => Throws (ErrorObject TypeError_message)
  | JSObject o =>
    match obj_get o (lit "prompts") with
    | Some p => Returns p
    | None => Returns JSUndefined
    end
  | _ => Returns JSUndefined
  end.

(** ** The remote service, as the adapter sees it

    The SDK and the service behind it are outside the repository.  A client
    is the pair of its two entry points; each maps the request it is given to
    the completion of the awaited call, a response or a thrown value.  The
    request records carry the fields [gemini.ts] writes.  The response
    records carry the fields it reads, as the interface table of the
    specification lists them: for text generation the response text and an
    optional finish-reason signal, for image generation a list of generated
    images.  The SDK declares the list, the image of a generated image and
    the bytes of an image optional; [gemini.ts] guards the list only. *)

Unset Elimination Schemes.
Inductive Schema :=
| SchemaString (description : jsstring)
| SchemaArray (items : Schema)
| SchemaObject (properties : list (jsstring * Schema)) (required : list jsstring).
Set Elimination Schemes.

Inductive Part :=
| InlineData (mimeType data : jsstring)
| TextPart (text : jsstring).

Inductive Contents :=
| Text (s : jsstring)
| Parts (parts : list Part).

Record GenerateContentConfig := {
  responseMimeType : jsstring;
  responseSchema : Schema
}.

Record GenerateContentParameters := {
  model : jsstring;
  contents : Contents;
  config : option GenerateContentConfig
}.

Record Candidate := {
  finishReason : option jsstring
}.

Record GenerateContentResponse := {
  text : option jsstring;
  candidates : option (list Candidate)
}.

(** Modelled from the spec: the type [AspectRatio] of [../types], which is
    not among the sources; an enumerated string value, passed through
    unchanged. *)
Definition AspectRatio := jsstring.

Record GenerateImagesConfig := {
  numberOfImages : N;
  outputMimeType : jsstring;
  aspectRatio : AspectRatio
}.

Record GenerateImagesParameters := {
  image_model : jsstring;
  prompt : jsstring;
  image_config : GenerateImagesConfig
}.

Record Image := {
  imageBytes : option jsstring
}.

Record GeneratedImage := {
  image : option Image
}.

Record GenerateImagesResponse := {
  generatedImages : option (list GeneratedImage)
}.

(** [ai.models] *)
Record Models := {
  generateContent : GenerateContentParameters -> Completion GenerateContentResponse;
  generateImages : GenerateImagesParameters -> Completion GenerateImagesResponse
}.

(** ** [gemini.ts] *)

Definition PROMPT_GENERATION_MODEL : jsstring := lit "gemini-2.5-flash".
Definition IMAGE_GENERATION_MODEL : jsstring := lit "imagen-3.0-generate-002".

Definition promptSchema : Schema :=
  SchemaObject
    [(lit "prompts",
      SchemaArray
        (SchemaString
           (lit "A single, descriptive prompt for generating an image based on a scene from the script.")))]
    [lit "prompts"].

(** The template up to the conditional niche line. *)
Definition requestPrompt_head : jsstring :=
  lines
    [ lit "System Instruction: You are an expert script analyst and creative director. Your job is to read a script, break it down into key visual moments, and generate safe, detailed prompts for a text-to-image AI.";
      [];
      lit "User Request:";
      lit "I have a script that needs to be visualized. Please generate a series of image prompts based on it.";
      [];
      lit "**Context & Style:**" ].

(** The template between the style and the script; it starts by ending the style line. *)
Definition requestPrompt_middle : jsstring :=
  lines
    [ [];
      [];
      lit "**CRITICAL INSTRUCTIONS:**";
      lit "1.  **Analyze and Breakdown:** Read the script and divide it into logical scenes or distinct visual moments.";
      lit "2.  **Generate Prompts:** For each scene, create ONE image prompt. Each prompt MUST be detailed and strictly adhere to the provided **Visual Style** and incorporate the **Topic/Niche** (if provided).";
      lit "3.  **IMPORTANT SAFETY RULE:** You MUST generate prompts that are safe and appropriate for a general audience. Do not describe or imply violence, explicit situations, or sensitive interactions, especially those involving minors, even if historically accurate. If the script contains such themes, you MUST represent them abstractly or symbolically. Focus on setting, atmosphere, and emotion. For example, to show tension, describe " ++ dq ++ lit "long, distorted shadows in a dimly lit room" ++ dq ++ lit " instead of a direct confrontation. Failure to follow this rule will result in an invalid response.";
      lit "4.  **Output Format:** Your entire response MUST be a valid JSON object with a single key " ++ dq ++ lit "prompts" ++ dq ++ lit ", which is an array of strings. Each string in the array is a single image prompt. Do not add any commentary, explanations, or markdown formatting around the JSON.";
      [];
      lit "**Example Response:**";
      lit "{";
      lit "  " ++ dq ++ lit "prompts" ++ dq ++ lit ": [";
      lit "    " ++ dq ++ lit "A lone astronaut stands on a desolate red planet, facing a swirling dust storm under a dim sun. Cinematic lighting casts long, dramatic shadows. The style is reminiscent of Denis Villeneuve's 'Dune'." ++ dq ++ lit ",";
      lit "    " ++ dq ++ lit "Extreme close-up on the astronaut's cracked helmet visor. The glass reflects a tiny, distant blue Earth, a stark contrast to the harsh alien landscape. The image is hyperrealistic, with visible dust particles floating in the foreground." ++ dq;
      lit "  ]";
      lit "}";
      [];
      lit "**SCRIPT TO ANALYZE:**";
      lit "---" ].

(** The template after the script. *)
Definition requestPrompt_tail : jsstring :=
  lines
    [ [];
      lit "---" ].

(** The label of the optional niche line and of the style line. *)
Definition niche_label : jsstring := lit "- **Topic/Niche:** ".
Definition style_label : jsstring := lit "- **Visual Style:** ".

(** The instruction text that initialises [requestPrompt] in
    [generatePrompts]: the template literal with its three interpolations.  An empty [niche] is falsy and
    contributes the empty string. *)
Definition requestPrompt_template (script style niche : jsstring) : jsstring :=
  requestPrompt_head
  ++ (match niche with
      | _ :: _ => niche_label ++ niche ++ nl
      | [] => []
      end)
  ++ style_label ++ style
  ++ requestPrompt_middle
  ++ script
  ++ requestPrompt_tail.

(** The messages [generatePrompts] throws. *)
Definition empty_response_message : jsstring :=
  lit "The AI returned an empty response. This can happen if the script is too short, vague, or contains content that goes against the safety policy.".
Definition safety_message : jsstring :=
  lit "The script or style contains content that violates safety policies. Please revise your input and try again.".
Definition recitation_message : jsstring :=
  lit "The response was blocked due to potential recitation issues. Try rephrasing your script.".
Definition stopped_message (finishReason : jsstring) : jsstring :=
  lit "Prompt generation stopped unexpectedly. Reason: " ++ finishReason
  ++ lit ". Please check your script content.".
Definition invalid_structure_message : jsstring :=
  lit "The AI returned a response with an invalid structure. Please try again.".
Definition invalid_JSON_message : jsstring :=
  lit "The AI returned a response that was not valid JSON. This may be a temporary issue, please try again.".
Definition unexpected_error_message : jsstring :=
  lit "Failed to generate prompts from the script due to an unexpected AI service error.".

(** [response.candidates?.[0]?.finishReason] *)
Definition first_finishReason (response : GenerateContentResponse) : option jsstring :=
  match candidates response with
  | Some (c :: _) => finishReason c
  | _ => None
  end.

(** The [errorMessage] chosen when the response text is falsy. *)
Definition errorMessage (finishReason : option jsstring) : jsstring :=
  if strict_eq finishReason (lit "SAFETY") then safety_message
  else if strict_eq finishReason (lit "RECITATION") then recitation_message
  else if truthy_string finishReason && negb (strict_eq finishReason (lit "STOP")) then
    match finishReason with
    | Some r => stopped_message r
    | None => empty_response_message
    end
  else empty_response_message.

Record PromptsResult := {
  prompts : JSValue;
  requestPrompt : jsstring
}.

(** The request [generatePrompts] dispatches for an instruction text. *)
Definition prompts_request (sent : jsstring) : GenerateContentParameters :=
  {| model := PROMPT_GENERATION_MODEL;
     contents := Text sent;
     config := Some {| responseMimeType := lit "application/json";
                       responseSchema := promptSchema |} |}.

(** The inner [try] block: parse, check the shape, return or throw. *)
Definition parse_prompts (jsonText sent : jsstring) : Completion PromptsResult :=
  result <- JSON_parse jsonText ;;
  ok <- (if truthy result
         then p <- get_prompts result ;; Returns (isArray p)
         else Returns false) ;;
  if ok : bool then
    p <- get_prompts result ;;
    Returns {| prompts := p; requestPrompt := sent |}
  else Throws (Error invalid_structure_message).

(** The outer [try] block. *)
Definition generatePrompts_try (ai : Models) (sent : jsstring)
  : Completion PromptsResult :=
  response <- generateContent ai (prompts_request sent) ;;
  let jsonText := text response in
  match jsonText with
  | Some ((_ :: _) as jsonText) =>
    try_catch (parse_prompts jsonText sent)
      (fun parseError => Throws (Error invalid_JSON_message))
  | _ =>
    let finishReason := first_finishReason response in
    Throws (Error (errorMessage finishReason))
  end.

(** The four beginnings the outer [catch] lets through. *)
Definition descriptive (message : jsstring) : bool :=
  startsWith message (lit "The AI returned")
  || startsWith message (lit "The script or style")
  || startsWith message (lit "The response was blocked")
  || startsWith message (lit "Prompt generation stopped").

(** The test of the outer [catch]: an [Error] with a descriptive message. *)
Definition user_friendly (error : Thrown) : bool :=
  instanceofError error
  && match error with
     | ErrorObject message => descriptive message
     | NonError _ => false
     end.

Definition generatePrompts_catch (error : Thrown) : Completion PromptsResult :=
  if user_friendly error then Throws error
  else Throws (Error unexpected_error_message).

Definition generatePrompts (ai : Models) (script style niche : jsstring)
  : Completion PromptsResult :=
  let sent := requestPrompt_template script style niche in
  try_catch (generatePrompts_try ai sent) generatePrompts_catch.

(** The argument of [analyzeImageStyle]. *)
Module imageData.
Record t := { base64 : jsstring; mimeType : jsstring }.
End imageData.

Definition style_instruction : jsstring :=
  lit "Analyze the artistic style of this image. Describe the style in a concise, comma-separated list of keywords and phrases suitable for a text-to-image AI. Focus on elements like lighting, color palette, composition, medium (e.g., photograph, oil painting), and overall mood. Do not use full sentences. Example: cinematic, dramatic lighting, high contrast, muted color palette, photorealistic, shallow depth of field, moody atmosphere.".

Definition analyze_failed_message : jsstring :=
  lit "Failed to analyze the reference image style.".

(** [response.text.trim()]: a call on [undefined] throws a TypeError. *)
Definition text_trim (response : GenerateContentResponse) : Completion jsstring :=
  match text response with
  | Some t => Returns (trim t)
  | None => Throws (ErrorObject TypeError_message)
  end.

(** The request [analyzeImageStyle] dispatches for an image. *)
Definition style_request (imageData : imageData.t) : GenerateContentParameters :=
  let imagePart := InlineData (imageData.mimeType imageData) (imageData.base64 imageData) in
  let textPart := TextPart style_instruction in
  {| model := PROMPT_GENERATION_MODEL;
     contents := Parts [imagePart; textPart];
     config := None |}.

Definition analyzeImageStyle (ai : Models) (imageData : imageData.t)
  : Completion jsstring :=
  try_catch
    (response <- generateContent ai (style_request imageData) ;;
     text_trim response)
    (fun error => Throws (Error analyze_failed_message)).

(** The result of [generateImage].  For [error], [None] is [null].  For
    [base64], [None] is [null] and [Some bytes] is what was read from
    [imageBytes]: a string, or [undefined] when [bytes] is [None]. *)
Record ImageResult := {
  base64 : option (option jsstring);
  error : option jsstring
}.

Definition no_image_message : jsstring := lit "The API did not return an image.".
Definition blocked_message : jsstring :=
  lit "This prompt was blocked for safety reasons. Please try rephrasing it.".
Definition image_failed_message : jsstring := lit "Image generation failed.".

(** The request [generateImage] dispatches. *)
Definition image_request (text : jsstring) (ratio : AspectRatio) : GenerateImagesParameters :=
  {| image_model := IMAGE_GENERATION_MODEL;
     prompt := text;
     image_config := {| numberOfImages := 1;
                        outputMimeType := lit "image/jpeg";
                        aspectRatio := ratio |} |}.

(** The message of the TypeError that reading [imageBytes] from an
    [undefined] image raises, in the wording of V8.  The engines word it
    differently; none of their wordings contains a mark the [catch] clause
    of [generateImage] looks for ([engine_wording_irrelevant] below). *)
Definition imageBytes_TypeError_message : jsstring :=
  lit "Cannot read properties of undefined (reading 'imageBytes')".

(** [generated.image.imageBytes], read without a guard: it throws when the
    image is [undefined] and gives [undefined] when the image has no
    bytes. *)
Definition read_imageBytes (generated : GeneratedImage)
  : Completion (option jsstring) :=
  match image generated with
  | Some img => Returns (imageBytes img)
  | None => Throws (ErrorObject imageBytes_TypeError_message)
  end.

Definition generateImage_try (ai : Models) (prompt : jsstring) (aspectRatio : AspectRatio)
  : Completion ImageResult :=
  response <- generateImages ai (image_request prompt aspectRatio) ;;
  match generatedImages response with
  | Some (first :: _) =>
    bytes <- read_imageBytes first ;;
    Returns {| base64 := Some bytes; error := None |}
  | _ => Returns {| base64 := None; error := Some no_image_message |}
  end.

Definition generateImage_catch (err : Thrown) : Completion ImageResult :=
  let errorMessage :=
    match err with
    | ErrorObject message => message
    | NonError _ => lit "An unknown error occurred."
    end in
  if includes errorMessage (lit "sensitive words")
     || includes errorMessage (lit "Responsible AI practices")
     || includes errorMessage (lit "prompt contains sensitive words")
  then Returns {| base64 := None; error := Some blocked_message |}
  else Returns {| base64 := None; error := Some image_failed_message |}.

Definition generateImage (ai : Models) (prompt : jsstring) (aspectRatio : AspectRatio)
  : Completion ImageResult :=
  try_catch (generateImage_try ai prompt aspectRatio) generateImage_catch.

(** ** Clients and texts for the examples *)

(** A client whose every call completes the same way. *)
Definition constant_client (content : Completion GenerateContentResponse)
  (images : Completion GenerateImagesResponse) : Models :=
  {| generateContent := fun _ => content; generateImages := fun _ => images |}.

(** A text-generation client that answers with a given text and finish
    reason. *)
Definition text_client (t : option jsstring) (reason : option jsstring) : Models :=
  constant_client
    (Returns {| text := t; candidates := Some [ {| finishReason := reason |} ] |})
    (Throws (NonError JSUndefined)).

(** A client whose calls all throw the same value. *)
Definition failing_client (e : Thrown) : Models :=
  constant_client (Throws e) (Throws e).

(** An image client that answers with the given images. *)
Definition image_client (images : option (list GeneratedImage)) : Models :=
  constant_client (Throws (NonError JSUndefined))
    (Returns {| generatedImages := images |}).

(** The text [{"prompts":["a","b"]}]. *)
Definition text_prompts_a_b : jsstring :=
  lit "{" ++ dq ++ lit "prompts" ++ dq ++ lit ":[" ++ dq ++ lit "a" ++ dq
  ++ lit "," ++ dq ++ lit "b" ++ dq ++ lit "]}".

(** The text [{"foo":1}]. *)
Definition text_foo_1 : jsstring :=
  lit "{" ++ dq ++ lit "foo" ++ dq ++ lit ":1}".

(** The text [{"prompts":[1,"x",[]]}]. *)
Definition text_prompts_mixed : jsstring :=
  lit "{" ++ dq ++ lit "prompts" ++ dq ++ lit ":[1," ++ dq ++ lit "x" ++ dq
  ++ lit ",[]]}".

(** No leading, no trailing whitespace. *)
Definition no_leading_ws (s : jsstring) : Prop :=
  forall c r, s = c :: r -> isWhiteSpace c = false.
Definition no_trailing_ws (s : jsstring) : Prop :=
  forall c r, s = r ++ [c] -> isWhiteSpace c = false.

(** ** Module initialisation *)

Definition API_KEY_message : jsstring := lit "API_KEY environment variable not set".

(** The top level of the module: [process.env.API_KEY] is [undefined] or a
    string; a falsy key throws, any other is handed to the constructor
    [GoogleGenAI], whose [models] the three operations use as [ai]. *)
Definition module_load (API_KEY : option jsstring) (GoogleGenAI : jsstring -> Models)
  : Completion Models :=
  match API_KEY with
  | Some ((_ :: _) as apiKey) => Returns (GoogleGenAI apiKey)
  | _ => Throws (Error API_KEY_message)
  end.

(** A string without a line feed. *)
Definition one_line (s : jsstring) : Prop := ~ In 10 s.

(** * Properties *)

(** ** Strings *)

Section StringFacts.

Lemma jseqb_eq a b : jseqb a b = true <-> a = b.
Proof.
  revert b; induction a as [|c a IH]; intros [|d b]; simpl;
    try (split; [discriminate | congruence]); try tauto.
  rewrite andb_true_iff, N.eqb_eq, IH. split.
  - intros [-> ->]; reflexivity.
  - intros H; injection H; auto.
Qed.

Lemma startsWith_spec s p : startsWith s p = true <-> exists r, s = p ++ r.
Proof.
  revert s; induction p as [|c p IH]; intros s; simpl.
  - split; [intros _; exists s; reflexivity | reflexivity].
  - destruct s as [|d s].
    + split; [discriminate | intros [r H]; discriminate].
    + rewrite andb_true_iff, N.eqb_eq, IH. split.
      * intros [-> [r ->]]. exists r; reflexivity.
      * intros [r H]. injection H as -> ->. split; [reflexivity | exists r; reflexivity].
Qed.

Lemma includes_spec s p : includes s p = true <-> exists a b, s = a ++ p ++ b.
Proof.
  induction s as [|c s IH]; simpl.
  - rewrite startsWith_spec. split.
    + intros [r H]. exists [], r. exact H.
    + intros [a [b H]]. destruct a; [exists b; exact H | discriminate].
  - rewrite orb_true_iff, startsWith_spec, IH. split.
    + intros [[r H] | [a [b H]]].
      * exists [], r. exact H.
      * exists (c :: a), b. simpl. congruence.
    + intros [[|d a] [b H]].
      * left. exists b. exact H.
      * right. injection H as -> ->. exists a, b. reflexivity.
Qed.

Lemma includes_middle a p b : includes (a ++ p ++ b) p = true.
Proof. apply includes_spec. exists a, b. reflexivity. Qed.

Lemma includes_app_l a b p : includes a p = true -> includes (a ++ b) p = true.
Proof.
  rewrite !includes_spec. intros [x [y ->]]. exists x, (y ++ b).
  rewrite <- !app_assoc. reflexivity.
Qed.

Lemma includes_app_r a b p : includes b p = true -> includes (a ++ b) p = true.
Proof.
  rewrite !includes_spec. intros [x [y ->]]. exists (a ++ x), y.
  rewrite <- !app_assoc. reflexivity.
Qed.

(** A search string is found inside any string that includes a longer one
    ending with it. *)
Lemma includes_suffix_of_needle s p q :
  includes s (p ++ q) = true -> includes s q = true.
Proof.
  rewrite !includes_spec. intros [a [b ->]]. exists (a ++ p), b.
  rewrite <- !app_assoc. reflexivity.
Qed.

(** A search string without the code unit [c] never straddles an occurrence
    of [c]. *)
Lemma startsWith_before_sep c p a b :
  ~ In c p -> startsWith (a ++ c :: b) p = startsWith a p.
Proof.
  revert a; induction p as [|d p IH]; intros a Hc; simpl.
  - reflexivity.
  - assert (Hd : d <> c) by (intros ->; apply Hc; left; reflexivity).
    assert (Hp : ~ In c p) by (intros H; apply Hc; right; exact H).
    destruct a as [|y a]; simpl.
    + apply N.eqb_neq in Hd. rewrite Hd. reflexivity.
    + rewrite IH by exact Hp. reflexivity.
Qed.

Lemma includes_sep c p a b :
  ~ In c p -> includes (a ++ c :: b) p = includes a p || includes b p.
Proof.
  intros Hc. induction a as [|x a IH].
  - pose proof (startsWith_before_sep c p [] b Hc) as H.
    simpl in *. rewrite H. reflexivity.
  - pose proof (startsWith_before_sep c p (x :: a) b Hc) as H.
    simpl in *. rewrite H, IH, orb_assoc. reflexivity.
Qed.

(** *** [trim] *)

Lemma trimStart_split s :
  exists w, s = w ++ trimStart s /\ forallb isWhiteSpace w = true.
Proof.
  induction s as [|c s [w [Hs Hw]]]; simpl.
  - exists []. split; reflexivity.
  - destruct (isWhiteSpace c) eqn:E.
    + exists (c :: w). simpl. rewrite E, Hw. split; [congruence | reflexivity].
    + exists []. split; reflexivity.
Qed.

Lemma trimStart_no_leading s : no_leading_ws (trimStart s).
Proof.
  induction s as [|c s IH]; simpl.
  - intros d r H; discriminate.
  - destruct (isWhiteSpace c) eqn:E; [exact IH |].
    intros d r H. injection H as <- _. exact E.
Qed.

(** Trimming a string that ends with a non-whitespace code unit keeps that
    end. *)
Lemma trimStart_keeps_last s c :
  isWhiteSpace c = false -> exists x, trimStart (s ++ [c]) = x ++ [c].
Proof.
  intros Hc. induction s as [|d s [x Hx]]; simpl.
  - rewrite Hc. exists []. reflexivity.
  - destruct (isWhiteSpace d).
    + exists x. exact Hx.
    + exists (d :: s). reflexivity.
Qed.

Lemma trim_split s :
  exists w1 w2, s = w1 ++ trim s ++ w2
    /\ forallb isWhiteSpace w1 = true /\ forallb isWhiteSpace w2 = true.
Proof.
  unfold trim, trimEnd.
  destruct (trimStart_split s) as [w1 [H1 Hw1]].
  destruct (trimStart_split (rev (trimStart s))) as [w2 [H2 Hw2]].
  exists w1, (rev w2). repeat split; [| exact Hw1 |].
  - rewrite <- rev_app_distr, <- H2, rev_involutive. exact H1.
  - rewrite forallb_forall in *. intros x Hx. apply Hw2.
    apply in_rev. exact Hx.
Qed.

Lemma trim_no_trailing s : no_trailing_ws (trim s).
Proof.
  unfold trim, trimEnd. intros c r H.
  apply (f_equal (@rev N)) in H. rewrite rev_involutive, rev_app_distr in H.
  simpl in H. exact (trimStart_no_leading _ c (rev r) H).
Qed.

Lemma trim_no_leading s : no_leading_ws (trim s).
Proof.
  unfold trim, trimEnd. intros c r H.
  destruct (trimStart s) as [|d u] eqn:E.
  - discriminate.
  - assert (Hd : isWhiteSpace d = false)
      by (apply (trimStart_no_leading s d u); exact E).
    simpl rev in H.
    destruct (trimStart_keeps_last (rev u) d Hd) as [x Hx].
    rewrite Hx, rev_app_distr in H. simpl in H.
    injection H as <- _. exact Hd.
Qed.

(** The trimmed text is empty exactly when the text is whitespace only. *)
Lemma trim_empty_iff s : trim s = [] <-> forallb isWhiteSpace s = true.
Proof.
  split.
  - intros H. destruct (trim_split s) as [w1 [w2 [Hs [H1 H2]]]].
    rewrite H in Hs. simpl in Hs. rewrite Hs, forallb_app, H1, H2. reflexivity.
  - intros H. unfold trim, trimEnd.
    assert (E : trimStart s = []).
    { induction s as [|c s IH]; simpl in *; [reflexivity |].
      apply andb_true_iff in H as [Hc Hs]. rewrite Hc. exact (IH Hs). }
    rewrite E. reflexivity.
Qed.

End StringFacts.

(** ** [JSON.parse]: the fuel bound is never reached *)

Section ParserFacts.

Lemma skip_ws_length s r : skip_ws s = r -> (List.length r <= List.length s)%nat.
Proof.
  intros <-. induction s as [|c s IH]; simpl; [lia |].
  destruct (isJSONWhiteSpace c); simpl; lia.
Qed.

Lemma string_chars_length n :
  forall s acc v r, (List.length s <= n)%nat ->
    string_chars s acc = Parsed v r -> (List.length r < List.length s)%nat.
Proof.
  induction n as [|n IH]; intros s acc v r Hn H.
  - destruct s; [discriminate | simpl in Hn; lia].
  - destruct s as [|c s]; [discriminate |]. simpl in H, Hn.
    destruct (c =? 34).
    { injection H as _ <-. simpl; lia. }
    destruct (c =? 92).
    + destruct s as [|e s]; [discriminate |]. simpl in Hn.
      destruct (e =? 117).
      * destruct s as [|h1 [|h2 [|h3 [|h4 s]]]]; try discriminate.
        destruct (hex4 h1 h2 h3 h4); [| discriminate].
        apply IH in H; simpl in *; lia.
      * destruct (escape e); [| discriminate].
        apply IH in H; simpl in *; lia.
    + destruct (c <? 32); [discriminate |].
      apply IH in H; simpl in *; lia.
Qed.

Lemma string_chars_consumes s acc v r :
  string_chars s acc = Parsed v r -> (List.length r < List.length s)%nat.
Proof. apply (string_chars_length (List.length s)). lia. Qed.

Lemma digits_length s : forall acc k m k' r,
  digits s acc k = (m, k', r) -> (List.length r <= List.length s)%nat.
Proof.
  induction s as [|c s IH]; intros acc k m k' r H; simpl in H.
  - injection H as _ _ <-. simpl; lia.
  - destruct (isDigit c).
    + apply IH in H. simpl; lia.
    + injection H as _ _ <-. lia.
Qed.

Lemma fraction_length s int m k r :
  fraction s int = Some (m, k, r) -> (List.length r <= List.length s)%nat.
Proof.
  unfold fraction. destruct s as [|c s].
  - intros H; injection H as _ _ <-. lia.
  - destruct (c =? 46).
    + destruct (digits s int 0) as [[m' k1] r'] eqn:E.
      apply digits_length in E. destruct k1; [discriminate |].
      intros H; injection H as _ _ <-. simpl; lia.
    + intros H; injection H as _ _ <-. lia.
Qed.

Lemma exponent_length s e r :
  exponent s = Some (e, r) -> (List.length r <= List.length s)%nat.
Proof.
  unfold exponent. destruct s as [|c s].
  - intros H; injection H as _ <-. lia.
  - destruct ((c =? 101) || (c =? 69)).
    + destruct (match s with
                | [] => (false, [])
                | d :: r' =>
                  if d =? 43 then (false, r')
                  else if d =? 45 then (true, r') else (false, s)
                end) as [neg r1] eqn:E1.
      assert (H1 : (List.length r1 <= List.length s)%nat).
      { destruct s as [|d s']; [injection E1 as _ <-; lia |].
        destruct (d =? 43); [injection E1 as _ <-; simpl; lia |].
        destruct (d =? 45); injection E1 as _ <-; simpl; lia. }
      destruct (digits r1 0 0) as [[e' k1] r2] eqn:E2.
      apply digits_length in E2. destruct k1; [discriminate |].
      intros H; injection H as _ <-. simpl; lia.
    + intros H; injection H as _ <-. lia.
Qed.

Lemma number_consumes s n r :
  number s = Parsed n r -> (List.length r < List.length s)%nat.
Proof.
  unfold number.
  destruct (match s with
            | [] => (false, [])
            | c :: r0 => if c =? 45 then (true, r0) else (false, s)
            end) as [neg s0] eqn:E0.
  assert (H0 : (List.length s0 <= List.length s)%nat).
  { destruct s as [|c s']; [injection E0 as _ <-; lia |].
    destruct (c =? 45); injection E0 as _ <-; simpl; lia. }
  destruct s0 as [|c r0]; [discriminate |].
  destruct (isDigit c) eqn:Ed; [| discriminate].
  destruct (if c =? 48 then (0, 1%nat, r0) else digits (c :: r0) 0 0)
    as [[int k0] s1] eqn:E1.
  assert (H1 : (List.length s1 <= List.length r0)%nat).
  { destruct (c =? 48); [injection E1 as _ _ <-; lia |].
    simpl in E1. rewrite Ed in E1. apply digits_length in E1. exact E1. }
  destruct (fraction s1 int) as [[[m k] s2] |] eqn:E2; [| discriminate].
  apply fraction_length in E2.
  destruct (exponent s2) as [[e s3] |] eqn:E3; [| discriminate].
  apply exponent_length in E3.
  intros H; injection H as _ <-. simpl in *; lia.
Qed.

Lemma startsWith_skipn s p :
  startsWith s p = true ->
  (List.length (skipn (List.length p) s) + List.length p = List.length s)%nat.
Proof.
  rewrite startsWith_spec. intros [r ->].
  rewrite skipn_app, skipn_all, Nat.sub_diag, !length_app. simpl. lia.
Qed.

Lemma keyword_consumes name v s v' r :
  name <> [] -> keyword name v s = Parsed v' r -> (List.length r < List.length s)%nat.
Proof.
  unfold keyword. intros Hn. destruct (startsWith s name) eqn:E; [| discriminate].
  apply startsWith_skipn in E. intros H; injection H as _ <-.
  destruct name; [congruence | simpl in *; lia].
Qed.

Ltac length_facts :=
  repeat match goal with
  | H : skip_ws _ = _ |- _ => apply skip_ws_length in H
  | H : string_chars _ _ = Parsed _ _ |- _ => apply string_chars_consumes in H
  | H : number _ = Parsed _ _ |- _ => apply number_consumes in H
  | H : keyword _ _ _ = Parsed _ _ |- _ =>
    apply keyword_consumes in H; [| discriminate]
  end.

Ltac split_match H :=
  repeat match type of H with
  | context [match ?x with _ => _ end] => destruct x eqn:?; try discriminate H
  end.

(** Every successful parse consumes at least one code unit. *)
Lemma parse_consumes fuel :
  (forall s v r, value fuel s = Parsed v r -> (List.length r < List.length s)%nat)
  /\ (forall acc s v r, elements fuel acc s = Parsed v r ->
        (List.length r < List.length s)%nat)
  /\ (forall acc s v r, members fuel acc s = Parsed v r ->
        (List.length r < List.length s)%nat).
Proof.
  induction fuel as [|fuel [IHv [IHe IHm]]].
  - repeat split; intros; discriminate.
  - repeat split.
    + intros s v r H. simpl in H. split_match H;
        try (injection H as _ <-);
        try (apply IHm in H); try (apply IHe in H);
        length_facts; simpl in *; lia.
    + intros acc s v r H. simpl in H.
      destruct (value fuel s) as [| | v0 r0] eqn:Ev; try discriminate H.
      apply IHv in Ev. split_match H;
        try (injection H as _ <-); try (apply IHe in H);
        length_facts; simpl in *; lia.
    + intros acc s v r H. simpl in H.
      destruct (skip_ws s) as [|q r0] eqn:E0; [discriminate |].
      destruct (q =? 34); [| discriminate].
      destruct (string_chars r0 []) as [| | k r1] eqn:E1; try discriminate.
      destruct (skip_ws r1) as [|c1 r2] eqn:E2; [discriminate |].
      destruct (c1 =? 58); [| discriminate].
      destruct (value fuel r2) as [| | v0 r3] eqn:Ev; try discriminate H.
      apply IHv in Ev. split_match H;
        try (injection H as _ <-); try (apply IHm in H);
        length_facts; simpl in *; lia.
Qed.

Lemma value_consumes fuel s v r :
  value fuel s = Parsed v r -> (List.length r < List.length s)%nat.
Proof. apply parse_consumes. Qed.

(** With two units of fuel per code unit, no parser runs out. *)
Lemma parse_fuel fuel :
  (forall s, (2 * List.length s + 1 <= fuel)%nat -> value fuel s <> OutOfFuel)
  /\ (forall acc s, (2 * List.length s + 2 <= fuel)%nat ->
        elements fuel acc s <> OutOfFuel)
  /\ (forall acc s, (2 * List.length s + 2 <= fuel)%nat ->
        members fuel acc s <> OutOfFuel).
Proof.
  induction fuel as [|fuel [IHv [IHe IHm]]].
  - repeat split; intros; lia.
  - repeat split.
    + intros s Hf. simpl.
      destruct (skip_ws s) as [|c r] eqn:E0; [discriminate |].
      apply skip_ws_length in E0. simpl in E0.
      destruct (c =? 123).
      { destruct (skip_ws r) as [|c' r'] eqn:E1; [discriminate |].
        destruct (c' =? 125); [discriminate |]. apply IHm. lia. }
      destruct (c =? 91).
      { destruct (skip_ws r) as [|c' r'] eqn:E1; [discriminate |].
        destruct (c' =? 93); [discriminate |]. apply IHe. lia. }
      destruct (c =? 34); [destruct (string_chars r []); discriminate |].
      unfold keyword.
      destruct (c =? 116); [destruct (startsWith _ _); discriminate |].
      destruct (c =? 102); [destruct (startsWith _ _); discriminate |].
      destruct (c =? 110); [destruct (startsWith _ _); discriminate |].
      destruct (number (c :: r)); discriminate.
    + intros acc s Hf. simpl.
      destruct (value fuel s) as [| | v0 r0] eqn:Ev; [| discriminate |].
      { exfalso. apply (IHv s); [lia | exact Ev]. }
      apply value_consumes in Ev.
      destruct (skip_ws r0) as [|c r'] eqn:E1; [discriminate |].
      apply skip_ws_length in E1. simpl in E1.
      destruct (c =? 44); [apply IHe; lia |].
      destruct (c =? 93); discriminate.
    + intros acc s Hf. simpl.
      destruct (skip_ws s) as [|q r0] eqn:E0; [discriminate |].
      apply skip_ws_length in E0. simpl in E0.
      destruct (q =? 34); [| discriminate].
      destruct (string_chars r0 []) as [| | k r1] eqn:E1; try discriminate.
      apply string_chars_consumes in E1.
      destruct (skip_ws r1) as [|c1 r2] eqn:E2; [discriminate |].
      apply skip_ws_length in E2. simpl in E2.
      destruct (c1 =? 58); [| discriminate].
      destruct (value fuel r2) as [| | v0 r3] eqn:Ev; [| discriminate |].
      { exfalso. apply (IHv r2); [lia | exact Ev]. }
      apply value_consumes in Ev.
      destruct (skip_ws r3) as [|c3 r4] eqn:E3; [discriminate |].
      apply skip_ws_length in E3. simpl in E3.
      destruct (c3 =? 44); [apply IHm; lia |].
      destruct (c3 =? 125); discriminate.
Qed.

(** [JSON_parse] throws only for a text outside the grammar. *)
Lemma JSON_parse_fuel text : value (fuel_for text) text <> OutOfFuel.
Proof. apply parse_fuel. unfold fuel_for. lia. Qed.

End ParserFacts.

(** ** [generatePrompts] *)

Section GeneratePrompts.

Variable ai : Models.
Variables script style niche : jsstring.

Let sent := requestPrompt_template script style niche.

Lemma JSON_parse_empty : JSON_parse [] = Throws (ErrorObject SyntaxError_message).
Proof. reflexivity. Qed.

(** Every message chosen for an empty response is a descriptive one. *)
Lemma errorMessage_descriptive reason : descriptive (errorMessage reason) = true.
Proof.
  unfold errorMessage.
  destruct (strict_eq reason (lit "SAFETY")); [reflexivity |].
  destruct (strict_eq reason (lit "RECITATION")); [reflexivity |].
  destruct (truthy_string reason && negb (strict_eq reason (lit "STOP")));
    [| reflexivity].
  destruct reason; reflexivity.
Qed.

Lemma strict_eq_true x s : strict_eq x s = true <-> x = Some s.
Proof.
  destruct x as [t|]; simpl.
  - rewrite jseqb_eq. split; congruence.
  - split; discriminate.
Qed.

Lemma strict_eq_false x s : strict_eq x s = false <-> x <> Some s.
Proof.
  rewrite <- strict_eq_true. destruct (strict_eq x s); split; congruence.
Qed.

(** The outer [try] block on a response whose text is falsy. *)
Lemma generatePrompts_try_empty response :
  generateContent ai (prompts_request sent) = Returns response ->
  truthy_string (text response) = false ->
  generatePrompts_try ai sent
  = Throws (Error (errorMessage (first_finishReason response))).
Proof.
  intros Hcall Hempty. unfold generatePrompts_try. rewrite Hcall. simpl.
  destruct (text response) as [[|c t]|]; [reflexivity | discriminate | reflexivity].
Qed.

(** The outer [try] block on a response with a text: the inner [try] with
    its [catch]. *)
Lemma generatePrompts_try_text response jsonText :
  generateContent ai (prompts_request sent) = Returns response ->
  text response = Some jsonText ->
  jsonText <> [] ->
  generatePrompts_try ai sent
  = try_catch (parse_prompts jsonText sent)
      (fun _ => Throws (Error invalid_JSON_message)).
Proof.
  intros Hcall Htext Hne. unfold generatePrompts_try. rewrite Hcall. simpl.
  rewrite Htext. destruct jsonText; [congruence | reflexivity].
Qed.

(** The inner [try] block on a text that parses to a value whose [prompts]
    is an array. *)
Lemma parse_prompts_array jsonText v l :
  JSON_parse jsonText = Returns v ->
  get_prompts v = Returns (JSArray l) ->
  parse_prompts jsonText sent
  = Returns {| prompts := JSArray l; requestPrompt := sent |}.
Proof.
  intros Hparse Hget. unfold parse_prompts. rewrite Hparse. simpl.
  assert (Ht : truthy v = true).
  { destruct v; simpl in *; try discriminate; reflexivity. }
  rewrite Ht, Hget. reflexivity.
Qed.

(** The inner [try] block on a text that parses to any other value: the
    invalid-structure error is thrown inside the block. *)
Lemma parse_prompts_wrong_shape jsonText v :
  JSON_parse jsonText = Returns v ->
  (forall l, get_prompts v <> Returns (JSArray l)) ->
  parse_prompts jsonText sent = Throws (Error invalid_structure_message).
Proof.
  intros Hparse Hget. unfold parse_prompts. rewrite Hparse. simpl.
  destruct (truthy v) eqn:Ht; [| reflexivity].
  destruct (get_prompts v) as [p | e] eqn:Hp.
  - simpl. destruct p; try reflexivity. exfalso. exact (Hget _ eq_refl).
  - destruct v; simpl in Ht, Hp; try discriminate.
    destruct (obj_get _ _); discriminate.
Qed.

End GeneratePrompts.

(** ** The instruction text *)

Section InstructionText.

Variables script style : jsstring.

(** The text up to the script, and the text from the script on. *)
Lemma template_script niche :
  exists a, requestPrompt_template script style niche
            = a ++ script ++ requestPrompt_tail.
Proof.
  unfold requestPrompt_template. eexists.
  rewrite !app_assoc. reflexivity.
Qed.

Lemma template_includes_script niche :
  includes (requestPrompt_template script style niche) script = true.
Proof.
  destruct (template_script niche) as [a ->]. apply includes_middle.
Qed.

Lemma template_includes_style niche :
  includes (requestPrompt_template script style niche) style = true.
Proof.
  unfold requestPrompt_template.
  rewrite (app_assoc requestPrompt_head), (app_assoc _ style_label).
  apply includes_middle.
Qed.

Lemma template_includes_niche niche :
  includes (requestPrompt_template script style niche) niche = true.
Proof.
  unfold requestPrompt_template. destruct niche as [|c niche'].
  - apply includes_spec. exists [], (requestPrompt_head ++ [] ++ style_label ++ style
      ++ requestPrompt_middle ++ script ++ requestPrompt_tail). reflexivity.
  - apply includes_app_r, includes_app_l.
    apply (includes_middle niche_label (c :: niche') nl).
Qed.

(** With a non-empty niche the line is there, label and all. *)
Lemma template_niche_line niche :
  niche <> [] ->
  includes (requestPrompt_template script style niche) (niche_label ++ niche ++ nl)
  = true.
Proof.
  intros Hn. unfold requestPrompt_template. destruct niche as [|c niche']; [congruence |].
  apply includes_app_r, includes_app_l.
  apply includes_spec. exists [], []. rewrite app_nil_r. reflexivity.
Qed.

Lemma niche_label_one_line : ~ In 10 niche_label.
Proof. intros H. vm_compute in H. intuition discriminate. Qed.

(** The fixed parts of the template, with the line feeds that frame the
    style line and the script taken off. *)
Lemma template_without_niche :
  requestPrompt_template script style []
  = removelast requestPrompt_head
    ++ 10 :: (style_label ++ style)
    ++ 10 :: removelast (tl requestPrompt_middle)
    ++ 10 :: script
    ++ 10 :: tl requestPrompt_tail.
Proof.
  unfold requestPrompt_template.
  assert (Eh : requestPrompt_head = removelast requestPrompt_head ++ [10])
    by (vm_compute; reflexivity).
  assert (Em : requestPrompt_middle
               = 10 :: removelast (tl requestPrompt_middle) ++ [10])
    by (vm_compute; reflexivity).
  assert (Et : requestPrompt_tail = 10 :: tl requestPrompt_tail)
    by (vm_compute; reflexivity).
  rewrite Eh at 1. rewrite Em at 1. rewrite Et at 1. clear Eh Em Et.
  generalize (removelast requestPrompt_head), (removelast (tl requestPrompt_middle)),
    (tl requestPrompt_tail), style_label.
  intros h m t l.
  repeat (rewrite <- app_assoc || rewrite <- app_comm_cons). reflexivity.
Qed.

(** The label is not completed across the boundary of the style line. *)
Lemma style_line_label :
  includes (style_label ++ style) niche_label = includes style niche_label.
Proof. reflexivity. Qed.

(** For an empty niche, the label occurs in the instruction text exactly
    when the caller's script or style brings it. *)
Lemma template_label_without_niche :
  includes (requestPrompt_template script style []) niche_label
  = includes style niche_label || includes script niche_label.
Proof.
  rewrite template_without_niche.
  rewrite !(includes_sep 10 niche_label) by exact niche_label_one_line.
  rewrite style_line_label.
  replace (includes (removelast requestPrompt_head) niche_label) with false
    by (vm_compute; reflexivity).
  replace (includes (removelast (tl requestPrompt_middle)) niche_label) with false
    by (vm_compute; reflexivity).
  replace (includes (tl requestPrompt_tail) niche_label) with false
    by (vm_compute; reflexivity).
  simpl. rewrite orb_false_r. reflexivity.
Qed.

End InstructionText.

(** ** The claims about [generatePrompts] *)

(** A parsed value whose shape is wrong makes [generatePrompts] fail with the
    message of the inner [catch]: the invalid-structure error is thrown
    inside the inner [try] and replaced there. *)
Lemma wrong_shape_reported_as_invalid_JSON ai script style niche response jsonText v :
  generateContent ai (prompts_request (requestPrompt_template script style niche))
  = Returns response ->
  text response = Some jsonText ->
  JSON_parse jsonText = Returns v ->
  (forall l, get_prompts v <> Returns (JSArray l)) ->
  generatePrompts ai script style niche = Throws (Error invalid_JSON_message).
Proof.
  intros Hcall Htext Hparse Hshape. unfold generatePrompts.
  assert (Hne : jsonText <> []).
  { intros ->. rewrite JSON_parse_empty in Hparse. discriminate. }
  rewrite (generatePrompts_try_text ai script style niche response jsonText Hcall Htext Hne).
  rewrite (parse_prompts_wrong_shape script style niche jsonText v Hparse Hshape).
  reflexivity.
Qed.

(** C1 (the code departs from the claim).  On the response text
    [{"foo":1}], valid JSON without a [prompts] array, [generatePrompts]
    fails with the not-valid-JSON message, which is not the
    invalid-structure message the claim names. *)
Theorem C1_wrong_shape_gets_invalid_JSON_message :
  forall script style niche,
    generatePrompts (text_client (Some text_foo_1) None) script style niche
    = Throws (Error invalid_JSON_message)
    /\ Error invalid_JSON_message <> Error invalid_structure_message.
Proof.
  intros script style niche. split.
  - apply (wrong_shape_reported_as_invalid_JSON _ _ _ _
             {| text := Some text_foo_1;
                candidates := Some [ {| finishReason := None |} ] |}
             text_foo_1
             (JSObject [(lit "foo", JSNumber {| negative := false; mantissa := 1;
                                                exponent10 := 0 |})]));
      try reflexivity.
    intros l H. discriminate H.
  - intros H. discriminate H.
Qed.

(** C2.  When the remote endpoint answers the dispatched request with the
    text [{"prompts":["a","b"]}], [generatePrompts] returns the prompts
    ["a"; "b"] and, as [requestPrompt], the instruction text of that
    request. *)
Theorem C2_prompts_a_b_returned ai script style niche response :
  generateContent ai (prompts_request (requestPrompt_template script style niche))
  = Returns response ->
  text response = Some text_prompts_a_b ->
  generatePrompts ai script style niche
  = Returns {| prompts := JSArray [JSString (lit "a"); JSString (lit "b")];
               requestPrompt := requestPrompt_template script style niche |}
  /\ contents (prompts_request (requestPrompt_template script style niche))
     = Text (requestPrompt_template script style niche).
Proof.
  intros Hcall Htext. split; [| reflexivity]. unfold generatePrompts.
  rewrite (generatePrompts_try_text ai script style niche response text_prompts_a_b
             Hcall Htext) by discriminate.
  rewrite (parse_prompts_array script style niche text_prompts_a_b
             (JSObject [(lit "prompts", JSArray [JSString (lit "a"); JSString (lit "b")])])
             [JSString (lit "a"); JSString (lit "b")]) by reflexivity.
  reflexivity.
Qed.

Lemma C2_prompts_a_b_returned_witness :
  generatePrompts (text_client (Some text_prompts_a_b) None)
    (lit "A fox runs.") (lit "watercolor") (lit "wildlife")
  = Returns {| prompts := JSArray [JSString (lit "a"); JSString (lit "b")];
               requestPrompt := requestPrompt_template (lit "A fox runs.")
                                  (lit "watercolor") (lit "wildlife") |}.
Proof.
  apply (C2_prompts_a_b_returned (text_client (Some text_prompts_a_b) None)
           (lit "A fox runs.") (lit "watercolor") (lit "wildlife")
           {| text := Some text_prompts_a_b;
              candidates := Some [ {| finishReason := None |} ] |});
    reflexivity.
Defined.

(** C3, first half as stated, second half amended.  The instruction text
    contains the script, the style and the niche verbatim, and for a
    non-empty niche the whole niche line.  For an empty niche the template
    writes no niche-labeled line: the label occurs in the instruction text
    exactly when the script or the style itself contains it. *)
Theorem C3_instruction_text script style niche :
  let sent := requestPrompt_template script style niche in
  includes sent script = true
  /\ includes sent style = true
  /\ includes sent niche = true
  /\ (niche <> [] -> includes sent (niche_label ++ niche ++ nl) = true)
  /\ (niche = [] ->
      includes sent niche_label
      = includes style niche_label || includes script niche_label).
Proof.
  cbv zeta. repeat split.
  - apply template_includes_script.
  - apply template_includes_style.
  - apply template_includes_niche.
  - apply template_niche_line.
  - intros ->. apply template_label_without_niche.
Qed.

Lemma C3_instruction_text_witness :
  includes (requestPrompt_template (lit "A fox runs.") (lit "watercolor") [])
    niche_label = false
  /\ includes (requestPrompt_template (lit "A fox runs.") (lit "watercolor")
                 (lit "wildlife"))
       (lit "- **Topic/Niche:** wildlife" ++ nl) = true.
Proof.
  split.
  - destruct (C3_instruction_text (lit "A fox runs.") (lit "watercolor") [])
      as [_ [_ [_ [_ H]]]].
    rewrite (H eq_refl). reflexivity.
  - destruct (C3_instruction_text (lit "A fox runs.") (lit "watercolor")
                (lit "wildlife")) as [_ [_ [_ [H _]]]].
    apply H. discriminate.
Defined.

(** C3 as stated fails: with an empty niche, a script that itself carries
    the label puts a niche-labeled line, a line of its own, into the
    instruction text. *)
Lemma C3_counterexample :
  includes (requestPrompt_template (lit "- **Topic/Niche:** cats") (lit "noir") [])
    niche_label = true
  /\ includes (requestPrompt_template (lit "- **Topic/Niche:** cats") (lit "noir") [])
       (nl ++ lit "- **Topic/Niche:** cats" ++ nl) = true.
Proof. split; vm_compute; reflexivity. Qed.

(** C4.  When the response text is empty or undefined, [generatePrompts]
    throws an error whose message the finish reason selects: the safety
    text for SAFETY, the recitation text for RECITATION, for any other
    reason that is present and not STOP the stopped-unexpectedly text with
    the reason in it, and the generic empty-response text otherwise.  A
    finish reason is present when the code's test finds it truthy: neither
    [undefined] nor the empty string. *)
Theorem C4_empty_response_message ai script style niche response :
  generateContent ai (prompts_request (requestPrompt_template script style niche))
  = Returns response ->
  truthy_string (text response) = false ->
  exists message,
    generatePrompts ai script style niche = Throws (Error message)
    /\ (first_finishReason response = Some (lit "SAFETY") ->
        message
        = lit "The script or style contains content that violates safety policies. Please revise your input and try again.")
    /\ (first_finishReason response = Some (lit "RECITATION") ->
        message
        = lit "The response was blocked due to potential recitation issues. Try rephrasing your script.")
    /\ (forall reason,
          first_finishReason response = Some reason ->
          reason <> [] -> reason <> lit "SAFETY" -> reason <> lit "RECITATION" ->
          reason <> lit "STOP" ->
          message
          = lit "Prompt generation stopped unexpectedly. Reason: " ++ reason
            ++ lit ". Please check your script content."
          /\ includes message reason = true
          /\ message
             <> lit "The AI returned an empty response. This can happen if the script is too short, vague, or contains content that goes against the safety policy.")
    /\ (first_finishReason response = None
        \/ first_finishReason response = Some []
        \/ first_finishReason response = Some (lit "STOP") ->
        message
        = lit "The AI returned an empty response. This can happen if the script is too short, vague, or contains content that goes against the safety policy.").
Proof.
  intros Hcall Hempty. exists (errorMessage (first_finishReason response)).
  split.
  - unfold generatePrompts.
    rewrite (generatePrompts_try_empty ai script style niche response Hcall Hempty).
    unfold try_catch, generatePrompts_catch, user_friendly, Error. simpl.
    rewrite errorMessage_descriptive. reflexivity.
  - generalize (first_finishReason response). intros fr. repeat split.
    + intros ->. reflexivity.
    + intros ->. reflexivity.
    + unfold errorMessage.
      assert (E1 : strict_eq fr (lit "SAFETY") = false)
        by (apply strict_eq_false; congruence).
      assert (E2 : strict_eq fr (lit "RECITATION") = false)
        by (apply strict_eq_false; congruence).
      assert (E3 : strict_eq fr (lit "STOP") = false)
        by (apply strict_eq_false; congruence).
      rewrite E1, E2, E3. subst fr. destruct reason; [congruence | reflexivity].
    + subst fr. unfold errorMessage.
      assert (E1 : strict_eq (Some reason) (lit "SAFETY") = false)
        by (apply strict_eq_false; congruence).
      assert (E2 : strict_eq (Some reason) (lit "RECITATION") = false)
        by (apply strict_eq_false; congruence).
      assert (E3 : strict_eq (Some reason) (lit "STOP") = false)
        by (apply strict_eq_false; congruence).
      rewrite E1, E2, E3. destruct reason as [|c r]; [congruence |].
      apply (includes_middle
               (lit "Prompt generation stopped unexpectedly. Reason: ") (c :: r)
               (lit ". Please check your script content.")).
    + subst fr. unfold errorMessage.
      assert (E1 : strict_eq (Some reason) (lit "SAFETY") = false)
        by (apply strict_eq_false; congruence).
      assert (E2 : strict_eq (Some reason) (lit "RECITATION") = false)
        by (apply strict_eq_false; congruence).
      assert (E3 : strict_eq (Some reason) (lit "STOP") = false)
        by (apply strict_eq_false; congruence).
      rewrite E1, E2, E3. destruct reason as [|c r]; [congruence |].
      intros E. discriminate E.
    + intros [-> | [-> | ->]]; reflexivity.
Qed.

Lemma C4_empty_response_message_witness :
  generatePrompts (text_client (Some []) (Some (lit "SAFETY")))
    (lit "A fox runs.") (lit "watercolor") []
  = Throws (Error (lit "The script or style contains content that violates safety policies. Please revise your input and try again."))
  /\ generatePrompts (text_client None (Some (lit "MAX_TOKENS")))
       (lit "A fox runs.") (lit "watercolor") []
     = Throws (Error (lit "Prompt generation stopped unexpectedly. Reason: MAX_TOKENS. Please check your script content.")).
Proof.
  split.
  - destruct (C4_empty_response_message
                (text_client (Some []) (Some (lit "SAFETY")))
                (lit "A fox runs.") (lit "watercolor") []
                {| text := Some [];
                   candidates := Some [ {| finishReason := Some (lit "SAFETY") |} ] |}
                eq_refl eq_refl) as [message [Hthrow [Hsafety _]]].
    rewrite Hthrow, (Hsafety eq_refl). reflexivity.
  - destruct (C4_empty_response_message
                (text_client None (Some (lit "MAX_TOKENS")))
                (lit "A fox runs.") (lit "watercolor") []
                {| text := None;
                   candidates := Some [ {| finishReason := Some (lit "MAX_TOKENS") |} ] |}
                eq_refl eq_refl) as [message [Hthrow [_ [_ [Hother _]]]]].
    destruct (Hother (lit "MAX_TOKENS") eq_refl) as [Hmessage _];
      try discriminate.
    rewrite Hthrow, Hmessage. reflexivity.
Defined.



(** C10.  The elements of the parsed [prompts] array are not inspected:
    whenever the response text parses and the [prompts] of the parsed value
    is an array, [generatePrompts] returns that array as it is. *)
Theorem C10_prompts_array_unchecked ai script style niche response jsonText v l :
  generateContent ai (prompts_request (requestPrompt_template script style niche))
  = Returns response ->
  text response = Some jsonText ->
  JSON_parse jsonText = Returns v ->
  get_prompts v = Returns (JSArray l) ->
  generatePrompts ai script style niche
  = Returns {| prompts := JSArray l;
               requestPrompt := requestPrompt_template script style niche |}.
Proof.
  intros Hcall Htext Hparse Hget. unfold generatePrompts.
  assert (Hne : jsonText <> []).
  { intros ->. rewrite JSON_parse_empty in Hparse. discriminate. }
  rewrite (generatePrompts_try_text ai script style niche response jsonText Hcall Htext Hne).
  rewrite (parse_prompts_array script style niche jsonText v l Hparse Hget).
  reflexivity.
Qed.

Lemma C10_prompts_array_unchecked_witness :
  generatePrompts (text_client (Some text_prompts_mixed) None)
    (lit "A fox runs.") (lit "watercolor") []
  = Returns {| prompts :=
                 JSArray [JSNumber {| negative := false; mantissa := 1;
                                      exponent10 := 0 |};
                          JSString (lit "x"); JSArray []];
               requestPrompt := requestPrompt_template (lit "A fox runs.")
                                  (lit "watercolor") [] |}.
Proof.
  apply (C10_prompts_array_unchecked (text_client (Some text_prompts_mixed) None)
           (lit "A fox runs.") (lit "watercolor") []
           {| text := Some text_prompts_mixed;
              candidates := Some [ {| finishReason := None |} ] |}
           text_prompts_mixed
           (JSObject [(lit "prompts",
                       JSArray [JSNumber {| negative := false; mantissa := 1;
                                            exponent10 := 0 |};
                                JSString (lit "x"); JSArray []])]));
    reflexivity.
Defined.

(** ** The claims about [generateImage] *)

Section GenerateImage.

Variable ai : Models.
Variable prompt : jsstring.
Variable aspectRatio : AspectRatio.

(** The [try] block on a returned response: no image, the bytes read from
    the first image, or the TypeError of the read, which the [catch] clause
    turns into the generic failure. *)
Lemma generateImage_try_returns response :
  generateImages ai (image_request prompt aspectRatio) = Returns response ->
  generateImage ai prompt aspectRatio
  = Returns
      match generatedImages response with
      | Some (first :: _) =>
        match image first with
        | Some img => {| base64 := Some (imageBytes img); error := None |}
        | None => {| base64 := None; error := Some image_failed_message |}
        end
      | _ => {| base64 := None; error := Some no_image_message |}
      end.
Proof.
  intros Hcall. unfold generateImage, generateImage_try. rewrite Hcall. simpl.
  destruct (generatedImages response) as [[|first rest]|]; try reflexivity.
  unfold read_imageBytes. destruct (image first); reflexivity.
Qed.

(** A thrown value reaches the [catch] clause. *)
Lemma generateImage_try_throws err :
  generateImages ai (image_request prompt aspectRatio) = Throws err ->
  generateImage ai prompt aspectRatio = generateImage_catch err.
Proof.
  intros Hcall. unfold generateImage, generateImage_try. rewrite Hcall. reflexivity.
Qed.

(** The [catch] clause returns as well. *)
Lemma generateImage_catch_returns err :
  exists message,
    generateImage_catch err = Returns {| base64 := None; error := Some message |}.
Proof.
  unfold generateImage_catch.
  match goal with |- context [if ?b then _ else _] => destruct b end;
    eexists; reflexivity.
Qed.

(** The third test of the [catch] clause is covered by the first. *)
Lemma third_test_covered message :
  includes message (lit "sensitive words") = false ->
  includes message (lit "prompt contains sensitive words") = false.
Proof.
  intros H. destruct (includes message (lit "prompt contains sensitive words")) eqn:E;
    [| reflexivity].
  change (lit "prompt contains sensitive words")
    with (lit "prompt contains " ++ lit "sensitive words") in E.
  apply includes_suffix_of_needle in E. congruence.
Qed.

End GenerateImage.

(** Whatever the wording of the engine's TypeError, as long as it carries
    neither mark, the [catch] clause gives the same result. *)
Lemma engine_wording_irrelevant message :
  includes message (lit "sensitive words") = false ->
  includes message (lit "Responsible AI practices") = false ->
  generateImage_catch (ErrorObject message)
  = generateImage_catch (ErrorObject imageBytes_TypeError_message).
Proof.
  intros H1 H2. unfold generateImage_catch.
  rewrite H1, H2, (third_test_covered message H1). reflexivity.
Qed.

(** [generateImage] returns for every completion of the remote call. *)
Lemma generateImage_returns ai prompt aspectRatio :
  exists result, generateImage ai prompt aspectRatio = Returns result.
Proof.
  destruct (generateImages ai (image_request prompt aspectRatio))
    as [response | err] eqn:Hcall.
  - rewrite (generateImage_try_returns ai prompt aspectRatio response Hcall).
    eexists. reflexivity.
  - rewrite (generateImage_try_throws ai prompt aspectRatio err Hcall).
    destruct (generateImage_catch_returns err) as [message ->].
    eexists. reflexivity.
Qed.

(** C6 (the code departs from the claim).  [generateImage] returns for
    every completion of the remote call, but on a response whose first
    generated image carries no bytes it returns a result with neither field
    populated: [base64] is [undefined] and [error] is [null]. *)
Theorem C6_missing_bytes_populate_neither_field :
  (forall ai prompt aspectRatio,
     exists result, generateImage ai prompt aspectRatio = Returns result)
  /\ (forall prompt aspectRatio,
        generateImage
          (image_client (Some [ {| image := Some {| imageBytes := None |} |} ]))
          prompt aspectRatio
        = Returns {| base64 := Some None; error := None |}).
Proof.
  split.
  - apply generateImage_returns.
  - intros prompt aspectRatio. reflexivity.
Qed.

(** C7, amended.  A response without images gives the fixed no-image
    error.  A response whose first generated image carries an image with
    bytes gives those bytes and no error.  A response whose first generated
    image carries no image makes the read fail inside the [try] block, and
    the result is the generic failure. *)
Theorem C7_images_of_response ai prompt aspectRatio response :
  generateImages ai (image_request prompt aspectRatio) = Returns response ->
  (generatedImages response = None \/ generatedImages response = Some [] ->
   generateImage ai prompt aspectRatio
   = Returns {| base64 := None; error := Some (lit "The API did not return an image.") |})
  /\ (forall first rest img bytes,
        generatedImages response = Some (first :: rest) ->
        image first = Some img ->
        imageBytes img = Some bytes ->
        generateImage ai prompt aspectRatio
        = Returns {| base64 := Some (Some bytes); error := None |})
  /\ (forall first rest,
        generatedImages response = Some (first :: rest) ->
        image first = None ->
        generateImage ai prompt aspectRatio
        = Returns {| base64 := None; error := Some (lit "Image generation failed.") |}).
Proof.
  intros Hcall. rewrite (generateImage_try_returns ai prompt aspectRatio response Hcall).
  split; [| split].
  - intros [-> | ->]; reflexivity.
  - intros first rest img bytes -> -> <-. reflexivity.
  - intros first rest -> ->. reflexivity.
Qed.

Lemma C7_images_of_response_witness :
  generateImage (image_client (Some [])) (lit "a fox") (lit "16:9")
  = Returns {| base64 := None; error := Some (lit "The API did not return an image.") |}
  /\ generateImage
       (image_client
          (Some [ {| image := Some {| imageBytes := Some (lit "/9j/4AAQ") |} |};
                  {| image := Some {| imageBytes := Some (lit "AAAA") |} |} ]))
       (lit "a fox") (lit "16:9")
     = Returns {| base64 := Some (Some (lit "/9j/4AAQ")); error := None |}
  /\ generateImage (image_client (Some [ {| image := None |} ]))
       (lit "a fox") (lit "16:9")
     = Returns {| base64 := None; error := Some (lit "Image generation failed.") |}.
Proof.
  split; [| split].
  - apply (C7_images_of_response (image_client (Some [])) (lit "a fox") (lit "16:9")
             {| generatedImages := Some [] |} eq_refl).
    right. reflexivity.
  - destruct (C7_images_of_response
                (image_client
                   (Some [ {| image := Some {| imageBytes := Some (lit "/9j/4AAQ") |} |};
                           {| image := Some {| imageBytes := Some (lit "AAAA") |} |} ]))
                (lit "a fox") (lit "16:9")
                {| generatedImages :=
                     Some [ {| image := Some {| imageBytes := Some (lit "/9j/4AAQ") |} |};
                            {| image := Some {| imageBytes := Some (lit "AAAA") |} |} ] |}
                eq_refl) as [_ [H _]].
    apply (H _ _ _ _ eq_refl eq_refl eq_refl).
  - destruct (C7_images_of_response
                (image_client (Some [ {| image := None |} ]))
                (lit "a fox") (lit "16:9")
                {| generatedImages := Some [ {| image := None |} ] |}
                eq_refl) as [_ [_ H]].
    apply (H _ _ eq_refl eq_refl).
Defined.

(** C7 as stated fails: the response below contains a generated image, yet
    the result is neither its bytes nor free of an error, because the entry
    the code reads, the first, carries no image. *)
Lemma C7_counterexample :
  generateImage
    (image_client
       (Some [ {| image := None |};
               {| image := Some {| imageBytes := Some (lit "AAAA") |} |} ]))
    (lit "a fox") (lit "16:9")
  = Returns {| base64 := None; error := Some (lit "Image generation failed.") |}.
Proof. reflexivity. Qed.

(** C8.  When the dispatch throws, [generateImage] returns: the
    safety-blocked result for an [Error] whose message contains one of the
    two marks, the generic failure for everything else thrown. *)
Theorem C8_thrown_becomes_result ai prompt aspectRatio err :
  generateImages ai (image_request prompt aspectRatio) = Throws err ->
  (forall message,
     err = ErrorObject message ->
     includes message (lit "sensitive words") = true
     \/ includes message (lit "Responsible AI practices") = true ->
     generateImage ai prompt aspectRatio
     = Returns {| base64 := None;
                  error := Some (lit "This prompt was blocked for safety reasons. Please try rephrasing it.") |})
  /\ ((forall message,
         err = ErrorObject message ->
         includes message (lit "sensitive words") = false
         /\ includes message (lit "Responsible AI practices") = false) ->
      generateImage ai prompt aspectRatio
      = Returns {| base64 := None; error := Some (lit "Image generation failed.") |}).
Proof.
  intros Hcall. rewrite (generateImage_try_throws ai prompt aspectRatio err Hcall).
  unfold generateImage_catch. split.
  - intros message -> [H | H]; rewrite H; [| rewrite orb_true_r]; reflexivity.
  - intros Hother. destruct err as [message | v].
    + destruct (Hother message eq_refl) as [H1 H2].
      rewrite H1, H2, (third_test_covered message H1). reflexivity.
    + reflexivity.
Qed.

Lemma C8_thrown_becomes_result_witness :
  generateImage
    (failing_client (ErrorObject (lit "The prompt contains sensitive words.")))
    (lit "a fox") (lit "16:9")
  = Returns {| base64 := None;
               error := Some (lit "This prompt was blocked for safety reasons. Please try rephrasing it.") |}
  /\ generateImage (failing_client (NonError JSNull)) (lit "a fox") (lit "16:9")
     = Returns {| base64 := None; error := Some (lit "Image generation failed.") |}.
Proof.
  split.
  - destruct (C8_thrown_becomes_result
                (failing_client (ErrorObject (lit "The prompt contains sensitive words.")))
                (lit "a fox") (lit "16:9")
                (ErrorObject (lit "The prompt contains sensitive words.")) eq_refl)
      as [H _].
    apply (H (lit "The prompt contains sensitive words.") eq_refl).
    left. reflexivity.
  - destruct (C8_thrown_becomes_result (failing_client (NonError JSNull))
                (lit "a fox") (lit "16:9") (NonError JSNull) eq_refl) as [_ H].
    apply H. intros message E. discriminate E.
Defined.

(** ** The claim about [analyzeImageStyle] *)

(** C9, amended.  When the remote call returns a response with a text,
    [analyzeImageStyle] returns that text without its leading and trailing
    whitespace, which is the empty string exactly when the text is
    whitespace only; a response without text and every thrown value are
    replaced by the one generic error. *)
Theorem C9_trimmed_text_or_generic_error ai imageData :
  (forall response t,
     generateContent ai (style_request imageData) = Returns response ->
     text response = Some t ->
     analyzeImageStyle ai imageData = Returns (trim t)
     /\ no_leading_ws (trim t) /\ no_trailing_ws (trim t)
     /\ (exists w1 w2, t = w1 ++ trim t ++ w2
           /\ forallb isWhiteSpace w1 = true /\ forallb isWhiteSpace w2 = true)
     /\ (trim t = [] <-> forallb isWhiteSpace t = true))
  /\ (forall response,
        generateContent ai (style_request imageData) = Returns response ->
        text response = None ->
        analyzeImageStyle ai imageData
        = Throws (Error (lit "Failed to analyze the reference image style.")))
  /\ (forall e,
        generateContent ai (style_request imageData) = Throws e ->
        analyzeImageStyle ai imageData
        = Throws (Error (lit "Failed to analyze the reference image style."))).
Proof.
  unfold analyzeImageStyle, text_trim. split; [| split].
  - intros response t Hcall Htext. rewrite Hcall. simpl. rewrite Htext.
    split; [reflexivity |]. split; [apply trim_no_leading |].
    split; [apply trim_no_trailing |]. split; [apply trim_split |].
    apply trim_empty_iff.
  - intros response Hcall Htext. rewrite Hcall. simpl. rewrite Htext. reflexivity.
  - intros e Hcall. rewrite Hcall. reflexivity.
Qed.

Lemma C9_trimmed_text_or_generic_error_witness :
  analyzeImageStyle (text_client (Some (lit "  cinematic, high contrast ")) None)
    {| imageData.base64 := lit "iVBORw0KGgo="; imageData.mimeType := lit "image/png" |}
  = Returns (lit "cinematic, high contrast")
  /\ analyzeImageStyle (text_client None None)
       {| imageData.base64 := lit "iVBORw0KGgo="; imageData.mimeType := lit "image/png" |}
     = Throws (Error (lit "Failed to analyze the reference image style.")).
Proof.
  split.
  - destruct (C9_trimmed_text_or_generic_error
                (text_client (Some (lit "  cinematic, high contrast ")) None)
                {| imageData.base64 := lit "iVBORw0KGgo=";
                   imageData.mimeType := lit "image/png" |}) as [H _].
    destruct (H {| text := Some (lit "  cinematic, high contrast ");
                   candidates := Some [ {| finishReason := None |} ] |}
                (lit "  cinematic, high contrast ") eq_refl eq_refl) as [-> _].
    reflexivity.
  - destruct (C9_trimmed_text_or_generic_error (text_client None None)
                {| imageData.base64 := lit "iVBORw0KGgo=";
                   imageData.mimeType := lit "image/png" |}) as [_ [H _]].
    apply (H {| text := None; candidates := Some [ {| finishReason := None |} ] |});
      reflexivity.
Defined.

(** C9 as stated fails: on an empty response text the call succeeds and
    returns the empty string; no error replaces it. *)
Lemma C9_counterexample :
  analyzeImageStyle (text_client (Some []) (Some (lit "STOP")))
    {| imageData.base64 := lit "iVBORw0KGgo="; imageData.mimeType := lit "image/png" |}
  = Returns [].
Proof. reflexivity. Qed.

(** * Further properties of the adapter *)

(** ** Where the errors of [generatePrompts] come from *)

Section PromptErrors.

Variable ai : Models.
Variables script style niche : jsstring.

Local Abbreviation sent := (requestPrompt_template script style niche).

(** On a response with a text, the outer [try] block returns an array or
    throws the message of the inner [catch]; the finish reason is not
    read. *)
Lemma try_on_text response jsonText :
  generateContent ai (prompts_request sent) = Returns response ->
  text response = Some jsonText ->
  jsonText <> [] ->
  (exists l, generatePrompts_try ai sent
             = Returns {| prompts := JSArray l; requestPrompt := sent |}
             /\ exists v, JSON_parse jsonText = Returns v
                          /\ get_prompts v = Returns (JSArray l))
  \/ generatePrompts_try ai sent = Throws (Error invalid_JSON_message).
Proof.
  intros Hcall Htext Hne.
  rewrite (generatePrompts_try_text ai script style niche response jsonText Hcall Htext Hne).
  destruct (JSON_parse jsonText) as [v | e] eqn:Hparse.
  - destruct (get_prompts v) as [p | e] eqn:Hget.
    + destruct (isArray p) eqn:Harr.
      * destruct p as [| | | | | l |]; try discriminate Harr. left. exists l.
        rewrite (parse_prompts_array script style niche jsonText v l Hparse Hget).
        split; [reflexivity |]. exists v. split; [reflexivity | exact Hget].
      * right.
        rewrite (parse_prompts_wrong_shape script style niche jsonText v Hparse);
          [reflexivity |].
        intros l H. rewrite H in Hget. injection Hget as <-. discriminate Harr.
    + right.
      rewrite (parse_prompts_wrong_shape script style niche jsonText v Hparse);
        [reflexivity |].
      intros l H. rewrite H in Hget. discriminate Hget.
  - right. unfold parse_prompts. rewrite Hparse. reflexivity.
Qed.

(** What the outer [try] block can throw once the remote call has
    returned. *)
Lemma try_throws_after_response response e :
  generateContent ai (prompts_request sent) = Returns response ->
  generatePrompts_try ai sent = Throws e ->
  e = Error invalid_JSON_message
  \/ e = Error (errorMessage (first_finishReason response)).
Proof.
  intros Hcall Hthrow.
  destruct (text response) as [[|c t]|] eqn:Htext.
  - right. rewrite (generatePrompts_try_empty ai script style niche response Hcall) in Hthrow
      by (rewrite Htext; reflexivity).
    congruence.
  - left. destruct (try_on_text response (c :: t) Hcall Htext) as [[l [H _]] | H];
      congruence.
  - right. rewrite (generatePrompts_try_empty ai script style niche response Hcall) in Hthrow
      by (rewrite Htext; reflexivity).
    congruence.
Qed.

(** A thrown value that the outer [catch] lets through is what the caller
    receives. *)
Lemma catch_descriptive message :
  descriptive message = true ->
  generatePrompts_catch (Error message) = Throws (Error message).
Proof.
  intros H. unfold generatePrompts_catch, user_friendly, Error. simpl. rewrite H.
  reflexivity.
Qed.

Lemma generatePrompts_after_throw e :
  generateContent ai (prompts_request sent) = Throws e ->
  generatePrompts ai script style niche = generatePrompts_catch e.
Proof.
  intros Hcall. unfold generatePrompts, generatePrompts_try.
  rewrite Hcall. reflexivity.
Qed.

(** Once the remote call has returned, every error of [generatePrompts] is
    the one the [try] block threw, and it is a descriptive one. *)
Lemma generatePrompts_throws_after_response response e :
  generateContent ai (prompts_request sent) = Returns response ->
  generatePrompts ai script style niche = Throws e ->
  e = Error invalid_JSON_message
  \/ e = Error (errorMessage (first_finishReason response)).
Proof.
  intros Hcall. unfold generatePrompts.
  destruct (generatePrompts_try ai sent) as [r | e0] eqn:Htry; [discriminate |].
  destruct (try_throws_after_response response e0 Hcall Htry) as [-> | ->]; simpl.
  - rewrite catch_descriptive by reflexivity. intros H. left. congruence.
  - rewrite catch_descriptive by apply errorMessage_descriptive.
    intros H. right. congruence.
Qed.

Lemma errorMessage_cases reason :
  errorMessage reason = safety_message
  \/ errorMessage reason = recitation_message
  \/ errorMessage reason = empty_response_message
  \/ exists r, errorMessage reason = stopped_message r.
Proof.
  unfold errorMessage.
  destruct (strict_eq reason (lit "SAFETY")); [left; reflexivity |].
  destruct (strict_eq reason (lit "RECITATION")); [right; left; reflexivity |].
  destruct (truthy_string reason && negb (strict_eq reason (lit "STOP")));
    [| right; right; left; reflexivity].
  destruct reason as [r|]; [| right; right; left; reflexivity].
  right; right; right. exists r. reflexivity.
Qed.

(** None of the messages chosen for an empty response is the
    invalid-structure message. *)
Lemma errorMessage_not_invalid_structure reason :
  errorMessage reason <> invalid_structure_message.
Proof.
  intros H.
  destruct (errorMessage_cases reason) as [E | [E | [E | [r E]]]];
    rewrite E in H; discriminate H.
Qed.

End PromptErrors.

(** X1.  A response text that [JSON.parse] rejects makes [generatePrompts]
    fail with the not-valid-JSON message; and on any non-empty response
    text, whatever the finish reason, the operation either returns an array
    or fails with that message. *)
Theorem X1_text_is_parsed_or_invalid_JSON ai script style niche response jsonText :
  generateContent ai (prompts_request (requestPrompt_template script style niche))
  = Returns response ->
  text response = Some jsonText ->
  jsonText <> [] ->
  (forall e, JSON_parse jsonText = Throws e ->
     generatePrompts ai script style niche = Throws (Error invalid_JSON_message))
  /\ ((exists l, generatePrompts ai script style niche
                 = Returns {| prompts := JSArray l;
                              requestPrompt := requestPrompt_template script style niche |})
      \/ generatePrompts ai script style niche = Throws (Error invalid_JSON_message)).
Proof.
  intros Hcall Htext Hne. unfold generatePrompts. split.
  - intros e Hparse.
    rewrite (generatePrompts_try_text ai script style niche response jsonText
               Hcall Htext Hne).
    unfold parse_prompts. rewrite Hparse. reflexivity.
  - destruct (try_on_text ai script style niche response jsonText Hcall Htext Hne)
      as [[l [H _]] | H]; rewrite H.
    + left. exists l. reflexivity.
    + right. reflexivity.
Qed.

Lemma X1_text_is_parsed_or_invalid_JSON_witness :
  generatePrompts (text_client (Some (lit "not json")) (Some (lit "MAX_TOKENS")))
    (lit "A fox runs.") (lit "watercolor") []
  = Throws (Error invalid_JSON_message).
Proof.
  destruct (X1_text_is_parsed_or_invalid_JSON
              (text_client (Some (lit "not json")) (Some (lit "MAX_TOKENS")))
              (lit "A fox runs.") (lit "watercolor") []
              {| text := Some (lit "not json");
                 candidates := Some [ {| finishReason := Some (lit "MAX_TOKENS") |} ] |}
              (lit "not json") eq_refl eq_refl) as [H _]; [discriminate |].
  apply (H (ErrorObject SyntaxError_message)). reflexivity.
Defined.

(** X2.  The generic unexpected-error message reaches the caller exactly
    when the remote call itself throws something the outer [catch] does not
    let through; no response, however malformed, produces it. *)
Theorem X2_unexpected_error_iff_dispatch_throws ai script style niche :
  generatePrompts ai script style niche = Throws (Error unexpected_error_message)
  <-> exists e,
        generateContent ai (prompts_request (requestPrompt_template script style niche))
        = Throws e
        /\ user_friendly e = false.
Proof.
  split.
  - intros H.
    destruct (generateContent ai
                (prompts_request (requestPrompt_template script style niche)))
      as [response | e] eqn:Hcall.
    + exfalso.
      destruct (generatePrompts_throws_after_response ai script style niche response
                  _ Hcall H) as [E | E]; [discriminate E |].
      injection E as E.
      pose proof (errorMessage_descriptive (first_finishReason response)) as Hd.
      rewrite <- E in Hd. discriminate Hd.
    + exists e. split; [reflexivity |].
      rewrite (generatePrompts_after_throw ai script style niche e Hcall) in H.
      unfold generatePrompts_catch in H.
      destruct (user_friendly e) eqn:Hu; [| reflexivity].
      injection H as ->. discriminate Hu.
  - intros [e [Hcall Hu]].
    rewrite (generatePrompts_after_throw ai script style niche e Hcall).
    unfold generatePrompts_catch. rewrite Hu. reflexivity.
Qed.

(** X3.  Every successful result of [generatePrompts] comes from a
    response whose non-empty text parsed to a value with an array as
    [prompts]: the result carries that array and the instruction text that
    was dispatched. *)
Theorem X3_success_comes_from_parsed_array ai script style niche result :
  generatePrompts ai script style niche = Returns result ->
  exists response jsonText v l,
    generateContent ai (prompts_request (requestPrompt_template script style niche))
    = Returns response
    /\ text response = Some jsonText
    /\ JSON_parse jsonText = Returns v
    /\ get_prompts v = Returns (JSArray l)
    /\ result = {| prompts := JSArray l;
                   requestPrompt := requestPrompt_template script style niche |}.
Proof.
  intros H.
  destruct (generateContent ai
              (prompts_request (requestPrompt_template script style niche)))
    as [response | e] eqn:Hcall.
  - destruct (text response) as [[|c t]|] eqn:Htext.
    + unfold generatePrompts in H.
      rewrite (generatePrompts_try_empty ai script style niche response Hcall) in H
        by (rewrite Htext; reflexivity).
      simpl in H. rewrite catch_descriptive in H by apply errorMessage_descriptive.
      discriminate H.
    + assert (Hne : c :: t <> []) by discriminate.
      unfold generatePrompts in H.
      destruct (try_on_text ai script style niche response (c :: t) Hcall Htext Hne)
        as [[l [Htry [v [Hparse Hget]]]] | Htry]; rewrite Htry in H.
      * exists response, (c :: t), v, l. simpl in H. injection H as <-.
        repeat split; assumption.
      * simpl in H. rewrite catch_descriptive in H by reflexivity. discriminate H.
    + unfold generatePrompts in H.
      rewrite (generatePrompts_try_empty ai script style niche response Hcall) in H
        by (rewrite Htext; reflexivity).
      simpl in H. rewrite catch_descriptive in H by apply errorMessage_descriptive.
      discriminate H.
  - rewrite (generatePrompts_after_throw ai script style niche e Hcall) in H.
    unfold generatePrompts_catch in H. destruct (user_friendly e); discriminate H.
Qed.

Lemma X3_success_comes_from_parsed_array_witness :
  exists response jsonText v l,
    generateContent (text_client (Some text_prompts_a_b) None)
      (prompts_request (requestPrompt_template (lit "A fox runs.") (lit "watercolor") []))
    = Returns response
    /\ text response = Some jsonText
    /\ JSON_parse jsonText = Returns v
    /\ get_prompts v = Returns (JSArray l)
    /\ {| prompts := JSArray [JSString (lit "a"); JSString (lit "b")];
          requestPrompt := requestPrompt_template (lit "A fox runs.")
                             (lit "watercolor") [] |}
       = {| prompts := JSArray l;
            requestPrompt := requestPrompt_template (lit "A fox runs.")
                               (lit "watercolor") [] |}.
Proof.
  apply (X3_success_comes_from_parsed_array
           (text_client (Some text_prompts_a_b) None)
           (lit "A fox runs.") (lit "watercolor") []).
  reflexivity.
Defined.

(** X4.  The invalid-structure message never comes out of the validation
    of a response: the caller receives it exactly when the remote call
    itself throws an error with that very message. *)
Theorem X4_invalid_structure_only_from_dispatch ai script style niche :
  generatePrompts ai script style niche = Throws (Error invalid_structure_message)
  <-> generateContent ai
        (prompts_request (requestPrompt_template script style niche))
      = Throws (Error invalid_structure_message).
Proof.
  split.
  - intros H.
    destruct (generateContent ai
                (prompts_request (requestPrompt_template script style niche)))
      as [response | e] eqn:Hcall.
    + exfalso.
      destruct (generatePrompts_throws_after_response ai script style niche response
                  _ Hcall H) as [E | E]; [discriminate E |].
      injection E as E.
      exact (errorMessage_not_invalid_structure (first_finishReason response)
               (eq_sym E)).
    + rewrite (generatePrompts_after_throw ai script style niche e Hcall) in H.
      unfold generatePrompts_catch in H.
      destruct (user_friendly e); [congruence | discriminate H].
  - intros Hcall.
    rewrite (generatePrompts_after_throw ai script style niche _ Hcall).
    apply catch_descriptive. reflexivity.
Qed.

(** ** What a result of [generateImage] tells about its cause *)

(** X5.  Every result of [generateImage] is of one of four kinds, and its
    [error] field names the cause: no error for what was read from the
    image of the first entry; the no-image message for a response without
    images; the safety-blocked message for a thrown [Error] whose message
    carries one of the two marks; and the generic failure for anything else
    thrown by the remote call or for a returned response whose first entry
    carries no image.  In the three error cases [base64] is [null], and the
    thrown value's own message never appears in the result. *)
Theorem X5_image_result_names_its_cause ai prompt aspectRatio result :
  generateImage ai prompt aspectRatio = Returns result ->
  (error result = None
   /\ exists response first rest img,
        generateImages ai (image_request prompt aspectRatio) = Returns response
        /\ generatedImages response = Some (first :: rest)
        /\ image first = Some img
        /\ base64 result = Some (imageBytes img))
  \/ (result = {| base64 := None;
                  error := Some (lit "The API did not return an image.") |}
      /\ exists response,
           generateImages ai (image_request prompt aspectRatio) = Returns response
           /\ (generatedImages response = None \/ generatedImages response = Some []))
  \/ (result = {| base64 := None;
                  error := Some (lit "This prompt was blocked for safety reasons. Please try rephrasing it.") |}
      /\ exists message,
           generateImages ai (image_request prompt aspectRatio)
           = Throws (ErrorObject message)
           /\ (includes message (lit "sensitive words") = true
               \/ includes message (lit "Responsible AI practices") = true))
  \/ (result = {| base64 := None; error := Some (lit "Image generation failed.") |}
      /\ ((exists e,
             generateImages ai (image_request prompt aspectRatio) = Throws e
             /\ forall message,
                  e = ErrorObject message ->
                  includes message (lit "sensitive words") = false
                  /\ includes message (lit "Responsible AI practices") = false)
          \/ exists response first rest,
               generateImages ai (image_request prompt aspectRatio) = Returns response
               /\ generatedImages response = Some (first :: rest)
               /\ image first = None)).
Proof.
  destruct (generateImages ai (image_request prompt aspectRatio))
    as [response | e] eqn:Hcall.
  - rewrite (generateImage_try_returns ai prompt aspectRatio response Hcall).
    intros H. injection H as <-.
    destruct (generatedImages response) as [[|first rest]|] eqn:Himages.
    + right; left. split; [reflexivity |]. exists response.
      split; [reflexivity | right; exact Himages].
    + destruct (image first) as [img|] eqn:Himage.
      * left. split; [reflexivity |]. exists response, first, rest, img.
        split; [reflexivity |]. split; [exact Himages |].
        split; [exact Himage | reflexivity].
      * right; right; right. split; [reflexivity |]. right.
        exists response, first, rest.
        split; [reflexivity |]. split; [exact Himages | exact Himage].
    + right; left. split; [reflexivity |]. exists response.
      split; [reflexivity | left; exact Himages].
  - rewrite (generateImage_try_throws ai prompt aspectRatio e Hcall).
    unfold generateImage_catch. destruct e as [message | v].
    + destruct (includes message (lit "sensitive words")) eqn:H1.
      * intros H. injection H as <-. right; right; left.
        split; [reflexivity |]. exists message. split; [reflexivity | left; exact H1].
      * destruct (includes message (lit "Responsible AI practices")) eqn:H2.
        -- intros H. injection H as <-. right; right; left.
           split; [reflexivity |]. exists message.
           split; [reflexivity | right; exact H2].
        -- rewrite (third_test_covered message H1).
           intros H. injection H as <-. right; right; right.
           split; [reflexivity |]. left. exists (ErrorObject message).
           split; [reflexivity |]. intros m E. injection E as <-. split; assumption.
    + intros H. injection H as <-. right; right; right.
      split; [reflexivity |]. left. exists (NonError v). split; [reflexivity |].
      intros m E. discriminate E.
Qed.

Lemma X5_image_result_names_its_cause_witness :
  exists message,
    generateImages
      (failing_client (ErrorObject (lit "Violates Responsible AI practices.")))
      (image_request (lit "a fox") (lit "1:1"))
    = Throws (ErrorObject message)
    /\ (includes message (lit "sensitive words") = true
        \/ includes message (lit "Responsible AI practices") = true).
Proof.
  destruct (X5_image_result_names_its_cause
              (failing_client (ErrorObject (lit "Violates Responsible AI practices.")))
              (lit "a fox") (lit "1:1")
              {| base64 := None; error := Some blocked_message |} eq_refl)
    as [[H _] | [[H _] | [[_ H] | [H _]]]];
    [discriminate H | discriminate H | exact H | discriminate H].
Defined.

(** ** The instruction text determines its inputs *)

Section TemplateInjective.

(** A string without the code unit [c], followed by [c], is cut off at a
    unique place. *)
Lemma split_at_first c : forall a a' b b' : jsstring,
  ~ In c a -> ~ In c a' -> a ++ c :: b = a' ++ c :: b' -> a = a' /\ b = b'.
Proof.
  induction a as [|x a IH]; intros [|y a'] b b' Ha Ha' H; simpl in H.
  - injection H as ->. split; reflexivity.
  - injection H as -> _. exfalso. apply Ha'. left. reflexivity.
  - injection H as -> _. exfalso. apply Ha. left. reflexivity.
  - injection H as -> H.
    destruct (IH a' b b') as [-> ->]; try exact H.
    + intros Hin. apply Ha. right. exact Hin.
    + intros Hin. apply Ha'. right. exact Hin.
    + split; reflexivity.
Qed.

(** From the style on: the style line ends at the first line feed, and the
    script is what stands between the fixed middle and the fixed tail. *)
Lemma style_and_script_determined script style script' style' :
  one_line style -> one_line style' ->
  style ++ requestPrompt_middle ++ script ++ requestPrompt_tail
  = style' ++ requestPrompt_middle ++ script' ++ requestPrompt_tail ->
  style = style' /\ script = script'.
Proof.
  intros Hs Hs' H.
  assert (Em : requestPrompt_middle = 10 :: tl requestPrompt_middle)
    by (vm_compute; reflexivity).
  rewrite Em in H. clear Em.
  set (m := tl requestPrompt_middle) in H. clearbody m.
  destruct (split_at_first 10 style style'
              (m ++ script ++ requestPrompt_tail)
              (m ++ script' ++ requestPrompt_tail) Hs Hs' H) as [-> H'].
  split; [reflexivity |].
  apply app_inv_head in H'. apply app_inv_tail in H'. exact H'.
Qed.

End TemplateInjective.

(** X6.  As long as the style and the niche are single lines, the
    instruction text determines the script, the style and the niche: two
    invocations that dispatch the same text were given the same
    arguments. *)
Theorem X6_instruction_text_determines_inputs script style niche script' style' niche' :
  one_line style -> one_line niche -> one_line style' -> one_line niche' ->
  requestPrompt_template script style niche
  = requestPrompt_template script' style' niche' ->
  script = script' /\ style = style' /\ niche = niche'.
Proof.
  intros Hs Hn Hs' Hn' H. unfold requestPrompt_template in H.
  apply app_inv_head in H.
  destruct niche as [|c n]; destruct niche' as [|c' n'].
  - simpl in H. apply (app_inv_head style_label) in H.
    destruct (style_and_script_determined _ _ _ _ Hs Hs' H) as [-> ->].
    repeat split.
  - exfalso. vm_compute in H. discriminate H.
  - exfalso. vm_compute in H. discriminate H.
  - rewrite <- !app_assoc in H. apply (app_inv_head niche_label) in H.
    change (nl ++ ?x) with (10 :: x) in H.
    assert (E : (c :: n) ++ 10 :: style_label ++ style ++ requestPrompt_middle
                  ++ script ++ requestPrompt_tail
                = (c' :: n') ++ 10 :: style_label ++ style' ++ requestPrompt_middle
                  ++ script' ++ requestPrompt_tail) by exact H.
    destruct (split_at_first 10 _ _ _ _ Hn Hn' E) as [En H'].
    apply (app_inv_head style_label) in H'.
    destruct (style_and_script_determined _ _ _ _ Hs Hs' H') as [-> ->].
    rewrite En. repeat split.
Qed.

Lemma X6_instruction_text_determines_inputs_witness :
  lit "A fox runs." = lit "A fox runs."
  /\ lit "watercolor" = lit "watercolor"
  /\ lit "wildlife" = lit "wildlife".
Proof.
  apply (X6_instruction_text_determines_inputs
           (lit "A fox runs.") (lit "watercolor") (lit "wildlife")
           (lit "A fox runs.") (lit "watercolor") (lit "wildlife"));
    try reflexivity;
    intros H; vm_compute in H; intuition discriminate.
Defined.

(** ** Module initialisation *)

(** X7.  Loading the module fails with the API-key message exactly when the
    key is not set or is the empty string; any other key is the one the
    client is built from. *)
Theorem X7_module_needs_a_key API_KEY GoogleGenAI :
  (module_load API_KEY GoogleGenAI = Throws (Error API_KEY_message)
   <-> API_KEY = None \/ API_KEY = Some [])
  /\ (forall ai,
        module_load API_KEY GoogleGenAI = Returns ai ->
        exists apiKey, API_KEY = Some apiKey /\ apiKey <> [] /\ ai = GoogleGenAI apiKey).
Proof.
  unfold module_load. destruct API_KEY as [[|c k]|]; split.
  - split; [intros _; right; reflexivity | reflexivity].
  - intros ai H. discriminate H.
  - split; [intros H; discriminate H | intros [H | H]; discriminate H].
  - intros ai H. injection H as <-. exists (c :: k).
    repeat split. discriminate.
  - split; [intros _; left; reflexivity | reflexivity].
  - intros ai H. discriminate H.
Qed.

(** ** What an outcome of [analyzeImageStyle] tells about its cause *)

(** A string without leading and trailing whitespace is left as it is. *)
Lemma trim_fixed s : no_leading_ws s -> no_trailing_ws s -> trim s = s.
Proof.
  intros Hl Ht. unfold trim, trimEnd.
  assert (E1 : trimStart s = s).
  { destruct s as [|c r]; [reflexivity |]. simpl.
    rewrite (Hl c r eq_refl). reflexivity. }
  rewrite E1.
  assert (E2 : trimStart (rev s) = rev s).
  { destruct (rev s) as [|c r] eqn:Er; [reflexivity |]. simpl.
    assert (Hs : s = rev r ++ [c]).
    { rewrite <- (rev_involutive s), Er. reflexivity. }
    rewrite (Ht c (rev r) Hs). reflexivity. }
  rewrite E2. apply rev_involutive.
Qed.

(** X8.  Every string [analyzeImageStyle] returns is the trimmed text of
    the response, and trimming it again changes nothing; every failure,
    whatever was thrown, reaches the caller as the one generic error, and
    it arises exactly when the remote call throws or the response has no
    text. *)
Theorem X8_style_outcome_names_its_cause ai imageData :
  (forall s,
     analyzeImageStyle ai imageData = Returns s ->
     trim s = s
     /\ exists response t,
          generateContent ai (style_request imageData) = Returns response
          /\ text response = Some t /\ s = trim t)
  /\ (forall e,
        analyzeImageStyle ai imageData = Throws e ->
        e = Error analyze_failed_message
        /\ ((exists e0, generateContent ai (style_request imageData) = Throws e0)
            \/ exists response,
                 generateContent ai (style_request imageData) = Returns response
                 /\ text response = None)).
Proof.
  unfold analyzeImageStyle, text_trim.
  destruct (generateContent ai (style_request imageData)) as [response | e0].
  - simpl. destruct (text response) as [t|] eqn:Htext; split.
    + intros s H. injection H as <-. split.
      * apply trim_fixed; [apply trim_no_leading | apply trim_no_trailing].
      * exists response, t. repeat split. exact Htext.
    + intros e H. discriminate H.
    + intros s H. discriminate H.
    + intros e H. injection H as <-. split; [reflexivity |].
      right. exists response. split; [reflexivity | exact Htext].
  - simpl. split.
    + intros s H. discriminate H.
    + intros e H. injection H as <-. split; [reflexivity |].
      left. exists e0. reflexivity.
Qed.

Lemma X8_style_outcome_names_its_cause_witness :
  trim (lit "cinematic, high contrast") = lit "cinematic, high contrast"
  /\ Error analyze_failed_message = Error analyze_failed_message.
Proof.
  split.
  - destruct (X8_style_outcome_names_its_cause
                (text_client (Some (lit "  cinematic, high contrast ")) None)
                {| imageData.base64 := lit "iVBORw0KGgo=";
                   imageData.mimeType := lit "image/png" |}) as [H _].
    destruct (H (lit "cinematic, high contrast") eq_refl) as [Hfix _].
    exact Hfix.
  - destruct (X8_style_outcome_names_its_cause
                (failing_client (ErrorObject (lit "fetch failed")))
                {| imageData.base64 := lit "iVBORw0KGgo=";
                   imageData.mimeType := lit "image/png" |}) as [_ H].
    destruct (H (Error analyze_failed_message) eq_refl) as [He _].
    exact He.
Defined.
